(** * shairport-sync, common.c: the dither source, the zero-frame generator
      and the volume transfer functions

    A shallow embedding of three groups of functions of [common.c]:

    - [ranval], [raninit], [r64init], [r64u], [r64i]: the small pseudo-random
      generator (lines 1585-1616);
    - [generate_zero_frames]: the generator of silence, dithered or not
      (lines 1893-2049);
    - [flat_vol2attn], [dasl_tapered_vol2attn], [vol2attn]: the three volume
      profiles (lines 1259-1399);

    and of the helpers of the same file that compute on integers, bytes and
    strings:

    - [sps_format_description_string] (lines 134-143);
    - [resetFreeUDPPort], [nextFreeUDPPort] (lines 268-285);
    - [str_replace] (lines 1542-1575);
    - [nctohl], [nctohs], [nctoh64] (lines 1618-1640);
    - [string_update_with_size] (lines 2051-2095);
    - [_debug_print_buffer] (lines 577-607);
    - [debug_malloc_hex_cstring] (lines 2107-2122);
    - [mod32Difference] (lines 2124-2133).

    Machine integers are integers of [Z] with the wrap-around of their C type
    written out; [size_t] is taken as 64 bits wide.  The process-wide
    generator state [rx] is threaded through the functions that use it; the
    mutex around it is not modelled, the functions are read as one thread
    runs them.  A call of [die] ends the call with its message.  The
    [double] arithmetic of the volume profiles is written over an interface
    with two instances, IEEE binary64 (primitive floats) and the real
    numbers. *)

From Stdlib Require Import String ZArith List Lia Bool.
From Stdlib Require Import Floats Uint63 Reals Lra.
Import ListNotations.
Local Open Scope Z_scope.

(** ** Machine integers *)

Module CInt.

(** Conversion to [uint64_t] and to [uint8_t]. *)
Definition u64 (z : Z) : Z := z mod 2 ^ 64.
Definition u8 (z : Z) : Z := z mod 2 ^ 8.

(** Conversion to [int64_t] (two's complement). *)
Definition i64 (z : Z) : Z := (z + 2 ^ 63) mod 2 ^ 64 - 2 ^ 63.

(** The values of the types. *)
Definition is_u64 (z : Z) : Prop := 0 <= z < 2 ^ 64.
Definition is_i64 (z : Z) : Prop := - 2 ^ 63 <= z < 2 ^ 63.

End CInt.

Import CInt.

(** ** The dither source (common.c, lines 1585-1616) *)

Module Ran.

(** [struct ranctx]: four [uint64_t] words. *)
Record ranctx : Type := mk_ranctx { a : Z; b : Z; c : Z; d : Z }.

Definition wf (x : ranctx) : Prop :=
  is_u64 (a x) /\ is_u64 (b x) /\ is_u64 (c x) /\ is_u64 (d x).

(** [#define rot(x, k) (((x) << (k)) | ((x) >> (64 - (k))))], on [uint64_t]:
    the left shift drops the bits that leave the 64-bit word. *)
Definition rot (x k : Z) : Z :=
  Z.lor (u64 (Z.shiftl x k)) (Z.shiftr x (64 - k)).

(** [uint64_t ranval(ranctx *x)]: the value returned and the state left in
    [*x].  The assignment to [x->a] comes first, so [x->d = e + x->a] reads the
    new [a]; [x->b] and [x->c] read the old [c] and [d]. *)
Definition ranval (x : ranctx) : Z * ranctx :=
  let e := u64 (a x - rot (b x) 7) in
  let a1 := Z.lxor (b x) (rot (c x) 13) in
  let b1 := u64 (c x + rot (d x) 37) in
  let c1 := u64 (d x + e) in
  let d1 := u64 (e + a1) in
  (d1, mk_ranctx a1 b1 c1 d1).

(** The loop [for (i = 0; i < 20; ++i) (void)ranval(x);] of [raninit], with
    the number of rounds still to run. *)
Fixpoint warm_up (rounds : nat) (x : ranctx) : ranctx :=
  match rounds with
  | O => x
  | S k => warm_up k (snd (ranval x))
  end.

(** [void raninit(ranctx *x, uint64_t seed)]: every field of [*x] is
    overwritten before it is read. *)
Definition raninit (x : ranctx) (seed : Z) : ranctx :=
  let x0 := mk_ranctx 0xf1ea5eed seed seed seed in
  warm_up 20 x0.

(** [void r64init(uint64_t seed)], on the process-wide state [rx]. *)
Definition r64init (rx : ranctx) (seed : Z) : ranctx := raninit rx seed.

(** [uint64_t r64u()]. *)
Definition r64u (rx : ranctx) : Z * ranctx := ranval rx.

(** [int64_t r64i() { return (ranval(&rx) >> 1); }]: a logical shift of the
    [uint64_t] value, converted to the [int64_t] return type. *)
Definition r64i (rx : ranctx) : Z * ranctx :=
  let (v, rx1) := ranval rx in (i64 (Z.shiftr v 1), rx1).

(** The values of [count] successive calls of [r64u]. *)
Fixpoint draws (count : nat) (rx : ranctx) : list Z :=
  match count with
  | O => []
  | S k => let (v, rx1) := r64u rx in v :: draws k rx1
  end.

End Ran.

(** ** The dither source as the specification words it *)

Module DitherSpec.

(** A 64-bit left rotation: the bits shifted out at the top come back at the
    bottom. *)
Definition rotl (x k : Z) : Z := (x * 2 ^ k) mod 2 ^ 64 + x / 2 ^ (64 - k).

Record state : Type := mk_state { sa : Z; sb : Z; sc : Z; sd : Z }.

(** [draw]: [e = a - rotl(b,7)], [a' = b xor rotl(c,13)],
    [b' = c + rotl(d,37)], [c' = d + e], [d' = e + a'], modulo [2^64];
    returns [d'] and commits [(a',b',c',d')]. *)
Definition draw (s : state) : Z * state :=
  let e := (sa s - rotl (sb s) 7) mod 2 ^ 64 in
  let a' := Z.lxor (sb s) (rotl (sc s) 13) in
  let b' := (sc s + rotl (sd s) 37) mod 2 ^ 64 in
  let c' := (sd s + e) mod 2 ^ 64 in
  let d' := (e + a') mod 2 ^ 64 in
  (d', mk_state a' b' c' d').

(** [seed]: [a = 0xf1ea5eed], [b = c = d = value], then 20 draws whose values
    are dropped. *)
Definition seed (value : Z) : state :=
  Nat.iter 20 (fun s => snd (draw s)) (mk_state 4058668781 value value value).

(** The first [count] values drawn from a state. *)
Fixpoint sequence (count : nat) (s : state) : list Z :=
  match count with
  | O => []
  | S k => fst (draw s) :: sequence k (snd (draw s))
  end.

End DitherSpec.

(** The code's state read as the specification's. *)
Definition abs_state (x : Ran.ranctx) : DitherSpec.state :=
  DitherSpec.mk_state (Ran.a x) (Ran.b x) (Ran.c x) (Ran.d x).

(** ** Calls that may end the process *)

Module Proc.

(** A call either returns or ends the process in [die]. *)
Inductive outcome (A : Type) : Type :=
| Returns (v : A)
| Dies (message : string).
Arguments Returns {A} v.
Arguments Dies {A} message.

Definition bind {A B : Type} (m : outcome A) (k : A -> outcome B) : outcome B :=
  match m with
  | Returns v => k v
  | Dies msg => Dies msg
  end.

Notation "'do' x <- m ; k" := (bind m (fun x => k))
  (at level 10, x pattern, m at level 100, k at level 200).

End Proc.

Import Proc.

(** ** The zero-frame generator (common.c, lines 1893-2049) *)

Module Zero.

Import Ran.

(** [sps_format_t].  The enumeration is declared in [common.h]; its members
    are the case labels of [generate_zero_frames], in the order of their
    names in [sps_format_description_string_array] (common.c, lines
    134-136). *)
Inductive sps_format_t : Type :=
| SPS_FORMAT_UNKNOWN
| SPS_FORMAT_S8
| SPS_FORMAT_U8
| SPS_FORMAT_S16
| SPS_FORMAT_S16_LE
| SPS_FORMAT_S16_BE
| SPS_FORMAT_S24
| SPS_FORMAT_S24_LE
| SPS_FORMAT_S24_BE
| SPS_FORMAT_S24_3LE
| SPS_FORMAT_S24_3BE
| SPS_FORMAT_S32
| SPS_FORMAT_S32_LE
| SPS_FORMAT_S32_BE
| SPS_FORMAT_AUTO
| SPS_FORMAT_INVALID.

(** The three values that are no sample encoding. *)
Definition is_sentinel (format : sps_format_t) : bool :=
  match format with
  | SPS_FORMAT_UNKNOWN | SPS_FORMAT_AUTO | SPS_FORMAT_INVALID => true
  | _ => false
  end.

(** The byte order of the machine, which decides how a store through [op]
    cast to a pointer to [int32_t] or [int16_t] lays a value out. *)
Inductive byte_order : Type := LittleEndian | BigEndian.

(** The [width] bytes of a value, least significant first. *)
Fixpoint le_bytes (width : nat) (v : Z) : list Z :=
  match width with
  | O => []
  | S k => u8 v :: le_bytes k (Z.shiftr v 8)
  end.

(** A store of a [width]-byte integer through a cast pointer. *)
Definition native_store (host : byte_order) (width : nat) (v : Z) : list Z :=
  match host with
  | LittleEndian => le_bytes width v
  | BigEndian => rev (le_bytes width v)
  end.

(** The bit width the first [switch] shifts by: [64 - 32], [64 - 24],
    [64 - 16] or [64 - 8]. *)
Definition bit_width (format : sps_format_t) : outcome Z :=
  match format with
  | SPS_FORMAT_S32 | SPS_FORMAT_S32_LE | SPS_FORMAT_S32_BE => Returns 32
  | SPS_FORMAT_S24 | SPS_FORMAT_S24_LE | SPS_FORMAT_S24_BE
  | SPS_FORMAT_S24_3LE | SPS_FORMAT_S24_3BE => Returns 24
  | SPS_FORMAT_S16 | SPS_FORMAT_S16_LE | SPS_FORMAT_S16_BE => Returns 16
  | SPS_FORMAT_S8 | SPS_FORMAT_U8 => Returns 8
  | SPS_FORMAT_UNKNOWN =>
      Dies "Unexpected SPS_FORMAT_UNKNOWN while calculating dither mask."
  | SPS_FORMAT_AUTO =>
      Dies "Unexpected SPS_FORMAT_AUTO while calculating dither mask."
  | SPS_FORMAT_INVALID =>
      Dies "Unexpected SPS_FORMAT_INVALID while calculating dither mask."
  end.

(** [dither_mask = (int64_t)1 << (64 - bits); ... dither_mask -= 1;]
    (lines 1912-1945). *)
Definition dither_mask (format : sps_format_t) : outcome Z :=
  do bits <- bit_width format;
  Returns (Z.shiftl 1 (64 - bits) - 1).

(** [tpdf = (r & dither_mask) - (previous_random_number & dither_mask)]
    (line 1956). *)
Definition tpdf (mask r previous_random_number : Z) : Z :=
  Z.land r mask - Z.land previous_random_number mask.

(** [hyper_sample = 0; if (with_dither != 0) hyper_sample += tpdf;]
    (lines 1953-1961). *)
Definition hyper_sample (with_dither mask r previous_random_number : Z) : Z :=
  if with_dither =? 0 then 0 else 0 + tpdf mask r previous_random_number.

(** The second [switch] (lines 1967-2043): the bytes stored at [op] and after
    it, [sample_length] of them. *)
Definition sample_bytes (host : byte_order) (format : sps_format_t) (hs : Z)
  : outcome (list Z) :=
  match format with
  | SPS_FORMAT_S32 =>
      Returns (native_store host 4 (Z.shiftr hs (64 - 32)))
  | SPS_FORMAT_S32_LE =>
      Returns [u8 (Z.shiftr hs (64 - 32)); u8 (Z.shiftr hs (64 - 32 + 8));
               u8 (Z.shiftr hs (64 - 32 + 16)); u8 (Z.shiftr hs (64 - 32 + 24))]
  | SPS_FORMAT_S32_BE =>
      Returns [u8 (Z.shiftr hs (64 - 32 + 24)); u8 (Z.shiftr hs (64 - 32 + 16));
               u8 (Z.shiftr hs (64 - 32 + 8)); u8 (Z.shiftr hs (64 - 32))]
  | SPS_FORMAT_S24_3LE =>
      Returns [u8 (Z.shiftr hs (64 - 24)); u8 (Z.shiftr hs (64 - 24 + 8));
               u8 (Z.shiftr hs (64 - 24 + 16))]
  | SPS_FORMAT_S24_3BE =>
      Returns [u8 (Z.shiftr hs (64 - 24 + 16)); u8 (Z.shiftr hs (64 - 24 + 8));
               u8 (Z.shiftr hs (64 - 24))]
  | SPS_FORMAT_S24 =>
      Returns (native_store host 4 (Z.shiftr hs (64 - 24)))
  | SPS_FORMAT_S24_LE =>
      Returns [u8 (Z.shiftr hs (64 - 24)); u8 (Z.shiftr hs (64 - 24 + 8));
               u8 (Z.shiftr hs (64 - 24 + 16)); 0]
  | SPS_FORMAT_S24_BE =>
      Returns [0; u8 (Z.shiftr hs (64 - 24 + 16));
               u8 (Z.shiftr hs (64 - 24 + 8)); u8 (Z.shiftr hs (64 - 24))]
  | SPS_FORMAT_S16_LE =>
      Returns [u8 (Z.shiftr hs (64 - 16)); u8 (Z.shiftr hs (64 - 16 + 8))]
  | SPS_FORMAT_S16_BE =>
      Returns [u8 (Z.shiftr hs (64 - 16 + 8)); u8 (Z.shiftr hs (64 - 16))]
  | SPS_FORMAT_S16 =>
      Returns (native_store host 2 (Z.shiftr hs (64 - 16)))
  | SPS_FORMAT_S8 =>
      Returns [u8 (Z.shiftr hs (64 - 8))]
  | SPS_FORMAT_U8 =>
      Returns [u8 (128 + u8 (Z.shiftr hs (64 - 8)))]
  | SPS_FORMAT_UNKNOWN | SPS_FORMAT_AUTO | SPS_FORMAT_INVALID =>
      Dies "Unexpected SPS_FORMAT_* with index %d while outputting silence"
  end.

(** What one round of the loop computes: the number drawn, the dither term,
    the sample before it is shifted into place, and the bytes stored. *)
Record round : Type := mk_round {
  drawn : Z;
  dither_term : Z;
  sample : Z;
  stored : list Z
}.

(** The body of the loop (lines 1953-2045), from the generator state and
    [previous_random_number]; the new [previous_random_number] is [drawn]. *)
Definition loop_body (host : byte_order) (format : sps_format_t)
    (with_dither mask : Z) (rx : ranctx) (previous_random_number : Z)
  : outcome (ranctx * round) :=
  let (r, rx1) := r64i rx in
  let t := tpdf mask r previous_random_number in
  let hs := hyper_sample with_dither mask r previous_random_number in
  do bytes <- sample_bytes host format hs;
  Returns (rx1, mk_round r t hs bytes).

(** The loop [for (sample_number = 0; sample_number < number_of_frames * 2;
    sample_number++)], with the number of rounds still to run. *)
Fixpoint loop (host : byte_order) (format : sps_format_t) (with_dither mask : Z)
    (rounds : nat) (rx : ranctx) (previous_random_number : Z)
  : outcome (ranctx * Z * list round) :=
  match rounds with
  | O => Returns (rx, previous_random_number, [])
  | S k =>
      do (rx1, rd) <- loop_body host format with_dither mask rx
                         previous_random_number;
      do (rx2, last, rds) <- loop host format with_dither mask k rx1 (drawn rd);
      Returns (rx2, last, rd :: rds)
  end.

(** [number_of_frames * 2] in [size_t], taken as 64 bits wide. *)
Definition sample_count (number_of_frames : Z) : nat :=
  Z.to_nat (u64 (number_of_frames * 2)).

(** The rounds of a call, with the state of the generator and the value of
    [previous_random_number] after the last of them. *)
Definition zero_frame_rounds (host : byte_order) (rx : ranctx)
    (number_of_frames : Z) (format : sps_format_t)
    (with_dither random_number_in : Z)
  : outcome (ranctx * Z * list round) :=
  do mask <- dither_mask format;
  loop host format with_dither mask (sample_count number_of_frames) rx
    random_number_in.

(** [int64_t generate_zero_frames(char* outp, size_t number_of_frames,
    sps_format_t format, int with_dither, int64_t random_number_in)]: the state
    of the generator after the call, the bytes written from [outp] on, and the
    value returned. *)
Definition generate_zero_frames (host : byte_order) (rx : ranctx)
    (number_of_frames : Z) (format : sps_format_t)
    (with_dither random_number_in : Z)
  : outcome (ranctx * list Z * Z) :=
  do (rx1, last, rds) <- zero_frame_rounds host rx number_of_frames format
                            with_dither random_number_in;
  Returns (rx1, concat (map stored rds), last).

(** [sample_length], as the second [switch] sets it. *)
Definition sample_length (format : sps_format_t) : nat :=
  match format with
  | SPS_FORMAT_S32 | SPS_FORMAT_S32_LE | SPS_FORMAT_S32_BE => 4
  | SPS_FORMAT_S24_3LE | SPS_FORMAT_S24_3BE => 3
  | SPS_FORMAT_S24 | SPS_FORMAT_S24_LE | SPS_FORMAT_S24_BE => 4
  | SPS_FORMAT_S16_LE | SPS_FORMAT_S16_BE | SPS_FORMAT_S16 => 2
  | SPS_FORMAT_S8 | SPS_FORMAT_U8 => 1
  | SPS_FORMAT_UNKNOWN | SPS_FORMAT_AUTO | SPS_FORMAT_INVALID => 0
  end.

(** The byte a sample of value zero is stored as. *)
Definition silence_byte (format : sps_format_t) : Z :=
  match format with
  | SPS_FORMAT_U8 => 128
  | _ => 0
  end.

(** The two bytes of every 16-bit sample exchanged. *)
Fixpoint swap16 (bytes : list Z) : list Z :=
  match bytes with
  | x :: y :: rest => y :: x :: swap16 rest
  | _ => bytes
  end.

(** The dither terms of successive rounds: each round subtracts the masked
    number of the round before it, the first one the masked
    [random_number_in]. *)
Fixpoint dither_terms (mask previous : Z) (numbers : list Z) : list Z :=
  match numbers with
  | [] => []
  | r :: rest => tpdf mask r previous :: dither_terms mask r rest
  end.

End Zero.

(** ** The volume profiles (common.c, lines 1259-1399) *)

Module Vol.

(** The operations of C's [double] the three functions use.  The functions
    are written once over this interface and read in two ways: in IEEE
    binary64, the arithmetic the program runs, and in the real numbers, the
    arithmetic its comments reason in.  The arithmetic on [long]
    ([max_db - min_db], [-range_db], [-range_db / 2]) is done in [Z]: a
    signed overflow is undefined in C. *)
Class Double (D : Type) : Type := {
  of_long : Z -> D;         (* conversion of an integer value *)
  fadd : D -> D -> D;
  fsub : D -> D -> D;
  fmul : D -> D -> D;
  fdiv : D -> D -> D;
  fle : D -> D -> bool;      (* [x <= y] *)
  flt : D -> D -> bool;      (* [x < y] *)
  feq : D -> D -> bool       (* [x == y] *)
}.

(** A call of [debug(level, format, ...)]. *)
Record log_entry : Type := mk_log { level : Z; text : string }.


Definition dasl_out_of_range : log_entry :=
  mk_log 1 "dasl_tapered volume request value %f is out of range: should be from 0.0 to -30.0 or -144.0.".

Definition dasl_flat_setting : log_entry :=
  mk_log 3 "dasl_tapered_vol2attn returning a flat setting of %f for AirPlay volume %f instead of a tapered setting of %f in a range from %f to %f.".

Definition vol2attn_out_of_range : log_entry :=
  mk_log 1 "vol2attn request value %f is out of range: should be from 0.0 to -30.0 or -144.0.".


Section Profiles.

Context {D : Type} {ops : Double D}.

(** The floating constants of the source ([0.0], [30.0], [-30.0], [-144.0])
    and the integer constants converted in mixed expressions are all
    integers: each is written [of_long] of its value. *)

(** [(vol <= 0.0) && (vol >= -30.0)]. *)
Definition in_range (vol : D) : bool :=
  fle vol (of_long 0) && fle (of_long (-30)) vol.

(** [vol != -144.0]. *)
Definition not_mute (vol : D) : bool := negb (feq vol (of_long (-144))).


(** [double dasl_tapered_vol2attn(double vol, long max_db, long min_db)]
    (lines 1283-1338).  [log10] is the function of the C library. *)
Definition dasl_tapered_vol2attn (log10 : D -> D) (vol : D) (max_db min_db : Z)
  : D * list log_entry :=
  let vol_setting := of_long min_db in
  if in_range vol then
    let vol_pct := fsub (of_long 1) (fdiv vol (of_long (-30))) in
    if fle vol_pct (of_long 0) then (of_long min_db, [])
    else
      let flat_setting :=
        fadd (of_long min_db) (fmul (of_long (max_db - min_db)) vol_pct) in
      let vol_setting :=
        fadd (of_long max_db)
             (fdiv (fmul (of_long 1000) (log10 vol_pct)) (log10 (of_long 2))) in
      if flt vol_setting flat_setting then (flat_setting, [dasl_flat_setting])
      else if flt (of_long max_db) vol_setting then (of_long max_db, [])
      else (vol_setting, [])
  else if not_mute vol then
    (vol_setting, [dasl_out_of_range])
  else
    (vol_setting, []).

(** The array [lines] of [vol2attn] (lines 1364-1374): for each line, where it
    leaves [y = 0] and the value it reaches at [x = -30].  [-range_db / 2] is
    a division of [long]s, which truncates. *)
Definition lines (max_db min_db : Z) : list (D * D) :=
  let range_db := max_db - min_db in
  let first_slope := of_long (Z.quot (- range_db) 2) in
  let first_slope :=
    if flt first_slope (of_long (- range_db)) then of_long range_db
    else first_slope in
  [ (of_long 0, first_slope);
    (of_long (-5),
     fsub first_slope
          (fdiv (fadd (of_long range_db) first_slope) (of_long 2)));
    (of_long (-17), of_long (- range_db)) ].

(** One round of the loop over [lines] (lines 1377-1385). *)
Definition line_step (vol : D) (line : D * D) (vol_setting : D) : outcome D :=
  let (x, y) := line in
  if fle vol x then
    if feq (fsub (of_long (-30)) x) (of_long 0) then
      Dies "(-30 - lines[%d][0]) == 0.0!"
    else
      let tvol := fdiv (fmul y (fsub vol x)) (fsub (of_long (-30)) x) in
      Returns (if flt tvol vol_setting then tvol else vol_setting)
  else Returns vol_setting.

(** The loop [for (i = 0; i < order; i++)] over the lines still to visit. *)
Fixpoint lines_loop (vol : D) (todo : list (D * D)) (vol_setting : D)
  : outcome D :=
  match todo with
  | [] => Returns vol_setting
  | line :: rest =>
      do vol_setting1 <- line_step vol line vol_setting;
      lines_loop vol rest vol_setting1
  end.

(** [double vol2attn(double vol, long max_db, long min_db)]
    (lines 1340-1399). *)
Definition vol2attn (vol : D) (max_db min_db : Z)
  : outcome (D * list log_entry) :=
  let vol_setting := of_long 0 in
  if in_range vol then
    do vol_setting1 <- lines_loop vol (lines max_db min_db) vol_setting;
    Returns (fadd vol_setting1 (of_long max_db), [])
  else if not_mute vol then
    Returns (of_long min_db, [vol2attn_out_of_range])
  else
    Returns (of_long min_db, []).

End Profiles.

(** *** IEEE binary64 *)

(** The conversion of a [long] of magnitude below [2^63], rounding to
    nearest. *)
Definition float_of_long (z : Z) : float :=
  match z with
  | Z0 => PrimFloat.of_uint63 0
  | Zpos _ => PrimFloat.of_uint63 (Uint63.of_Z z)
  | Zneg p => PrimFloat.opp (PrimFloat.of_uint63 (Uint63.of_Z (Zpos p)))
  end.

#[export] Instance binary64 : Double float := {
  of_long := float_of_long;
  fadd := PrimFloat.add;
  fsub := PrimFloat.sub;
  fmul := PrimFloat.mul;
  fdiv := PrimFloat.div;
  fle := PrimFloat.leb;
  flt := PrimFloat.ltb;
  feq := PrimFloat.eqb
}.

(** *** Real numbers *)






End Vol.

(** ** Narrower machine integers *)

Module CNarrow.

(** Conversion to [uint16_t] and to [uint32_t]. *)
Definition u16 (z : Z) : Z := z mod 2 ^ 16.
Definition u32 (z : Z) : Z := z mod 2 ^ 32.

(** Conversion to [int32_t] (two's complement). *)
Definition i32 (z : Z) : Z := (z + 2 ^ 31) mod 2 ^ 32 - 2 ^ 31.

(** The values of the types. *)
Definition is_u8 (z : Z) : Prop := 0 <= z < 2 ^ 8.
Definition is_u16 (z : Z) : Prop := 0 <= z < 2 ^ 16.
Definition is_u32 (z : Z) : Prop := 0 <= z < 2 ^ 32.
Definition is_i32 (z : Z) : Prop := - 2 ^ 31 <= z < 2 ^ 31.

End CNarrow.

Import CNarrow.

(** ** Names of the formats (common.c, lines 134-143) *)

Module Names.

Import Zero.

(** The value of a member of [sps_format_t]: its place in the enumeration. *)
Definition enum_value (format : sps_format_t) : Z :=
  match format with
  | SPS_FORMAT_UNKNOWN => 0
  | SPS_FORMAT_S8 => 1
  | SPS_FORMAT_U8 => 2
  | SPS_FORMAT_S16 => 3
  | SPS_FORMAT_S16_LE => 4
  | SPS_FORMAT_S16_BE => 5
  | SPS_FORMAT_S24 => 6
  | SPS_FORMAT_S24_LE => 7
  | SPS_FORMAT_S24_BE => 8
  | SPS_FORMAT_S24_3LE => 9
  | SPS_FORMAT_S24_3BE => 10
  | SPS_FORMAT_S32 => 11
  | SPS_FORMAT_S32_LE => 12
  | SPS_FORMAT_S32_BE => 13
  | SPS_FORMAT_AUTO => 14
  | SPS_FORMAT_INVALID => 15
  end.

Definition sps_format_description_string_array : list string :=
  ["unknown"; "S8"; "U8"; "S16"; "S16_LE"; "S16_BE"; "S24"; "S24_LE";
   "S24_BE"; "S24_3LE"; "S24_3BE"; "S32"; "S32_LE"; "S32_BE"; "auto";
   "invalid"]%string.

(** [sps_format_description_string], on the value the argument holds, which
    is not negative and need not be that of a member of the enumeration.
    The result is the element of the array read, if there is one. *)
Definition sps_format_description_string (format : Z) : option string :=
  if format <=? enum_value SPS_FORMAT_AUTO
  then nth_error sps_format_description_string_array (Z.to_nat format)
  else nth_error sps_format_description_string_array
         (Z.to_nat (enum_value SPS_FORMAT_INVALID)).

End Names.

(** ** Suggested UDP ports (common.c, lines 268-285) *)

Module Ports.

(** The two fields of [config] the functions read; they are declared in
    [common.h]. *)
Record config_t : Type := mk_config { udp_port_base : Z; udp_port_range : Z }.

(** [resetFreeUDPPort]: the new value of the static [UDPPortIndex]. *)
Definition resetFreeUDPPort (UDPPortIndex : Z) : Z := 0.

(** [nextFreeUDPPort]: the value returned and the new value of
    [UDPPortIndex], a [uint16_t]. *)
Definition nextFreeUDPPort (config : config_t) (UDPPortIndex : Z) : Z * Z :=
  let UDPPortIndex' :=
    if UDPPortIndex =? 0 then u16 (udp_port_base config)
    else if UDPPortIndex
            =? udp_port_base config + udp_port_range config - 1
         then u16 (udp_port_base config + 3)
         else u16 (UDPPortIndex + 1) in
  (UDPPortIndex', UDPPortIndex').

(** [UDPPortIndex] after [n] calls of [nextFreeUDPPort]. *)
Fixpoint index_after (config : config_t) (n : nat) (UDPPortIndex : Z) : Z :=
  match n with
  | O => UDPPortIndex
  | S k => index_after config k (snd (nextFreeUDPPort config UDPPortIndex))
  end.

(** The port the call after [n] earlier ones suggests, counted from a call
    of [resetFreeUDPPort]. *)
Definition suggestion (config : config_t) (n : nat) : Z :=
  fst (nextFreeUDPPort config (index_after config n (resetFreeUDPPort 0))).

(** The ports of a range of at least four in the order the proofs show
    them to be suggested: those of the range once, then those above the
    first three again and again. *)
Definition port_of_call (config : config_t) (n : Z) : Z :=
  if n <? udp_port_range config then udp_port_base config + n
  else udp_port_base config + 3
       + (n - udp_port_range config) mod (udp_port_range config - 3).

End Ports.

(** ** Integers in network byte order (common.c, lines 1618-1640) *)

Module Net.

Import Zero.

(** The value of an integer whose bytes are [bytes], most significant
    first. *)
Definition be_value (bytes : list Z) : Z :=
  fold_left (fun acc byte => acc * 2 ^ 8 + byte) bytes 0.

(** [memcpy(&holder, p, sizeof(holder))]: the value [holder] has once the
    bytes are copied into it, on a machine of byte order [host]. *)
Definition holder_value (host : byte_order) (bytes : list Z) : Z :=
  match host with
  | BigEndian => be_value bytes
  | LittleEndian => be_value (rev bytes)
  end.

(** [ntohl] and [ntohs]: nothing on a big-endian machine, a swap of the
    [width] bytes on a little-endian one. *)
Definition ntoh (host : byte_order) (width : nat) (v : Z) : Z :=
  match host with
  | BigEndian => v
  | LittleEndian => be_value (le_bytes width v)
  end.

(** The [width] bytes at [p]; [p] is given as the bytes that can be read
    from it on. *)
Definition bytes_at (width : nat) (p : list Z) : option (list Z) :=
  if (width <=? List.length p)%nat then Some (firstn width p) else None.

Definition nctohl (host : byte_order) (p : list Z) : option Z :=
  match bytes_at 4 p with
  | Some bytes => Some (ntoh host 4 (holder_value host bytes))
  | None => None
  end.

Definition nctohs (host : byte_order) (p : list Z) : option Z :=
  match bytes_at 2 p with
  | Some bytes => Some (ntoh host 2 (holder_value host bytes))
  | None => None
  end.

(** [nctoh64]: [p + sizeof(uint32_t)] is [skipn 4 p]. *)
Definition nctoh64 (host : byte_order) (p : list Z) : option Z :=
  match nctohl host p with
  | Some landing =>
      let vl := u64 (Z.shiftl landing 32) in
      match nctohl host (skipn 4 p) with
      | Some ul => Some (u64 (vl + ul))
      | None => None
      end
  | None => None
  end.

End Net.

(** ** Differences of 32-bit counters (common.c, lines 2124-2133) *)

Module Mod32.

(** [int32_t result = a - b]: the difference is taken in [uint32_t] and
    converted to [int32_t]. *)
Definition mod32Difference (a b : Z) : Z := i32 (u32 (a - b)).

End Mod32.

(** ** Strings (common.c, lines 1542-1575 and 2051-2122) *)

Module CStr.

(** A pointer to [char] is given by the bytes that can be read from it on,
    up to the NUL that ends its allocation; that NUL is not listed, so that
    the byte after the last one reads as NUL.  Allocation is taken to
    succeed. *)

(** [strlen]: the bytes before the first NUL. *)
Fixpoint strlen (s : list Z) : nat :=
  match s with
  | [] => O
  | c :: rest => if c =? 0 then O else S (strlen rest)
  end.

(** [strncmp]: the difference of the first two bytes that differ among the
    first [n], none after a NUL. *)
Fixpoint strncmp (s1 s2 : list Z) (n : nat) : Z :=
  match n with
  | O => 0
  | S k =>
      let c1 := hd 0 s1 in
      let c2 := hd 0 s2 in
      if c1 =? c2
      then if c1 =? 0 then 0 else strncmp (tl s1) (tl s2) k
      else c1 - c2
  end.

(** [p = malloc(len + 1); memcpy(p, s, len); p[len] = 0]. *)
Definition copy_of (s : list Z) (len : nat) : list Z := firstn len s.

(** [string_update_with_size]: the new value of [*str] and that of [*flag],
    which is also the value returned.  [None] is the null pointer. *)
Definition string_update_with_size
    (str : option (list Z)) (s : option (list Z)) (len : nat)
  : option (list Z) * Z :=
  match str with
  | Some old =>
      match s, len with
      | Some new, S _ =>
          if negb (len =? strlen old)%nat || negb (strncmp old new len =? 0)
          then (Some (copy_of new len), 1)
          else (str, 0)
      | _, _ => (None, 1)
      end
  | None =>
      match s, len with
      | Some new, S _ => (Some (copy_of new len), 1)
      | _, _ => (None, 0)
      end
  end.

(** The bytes behind a pointer, none behind the null pointer. *)
Definition bytes_of (p : option (list Z)) : list Z :=
  match p with
  | Some bytes => bytes
  | None => []
  end.

(** [strstr]: the offset of the first place where [needle] starts in
    [haystack]. *)
Fixpoint starts_with (needle s : list Z) : bool :=
  match needle, s with
  | [], _ => true
  | _ :: _, [] => false
  | c :: needle', d :: s' => (c =? d) && starts_with needle' s'
  end.

Fixpoint strstr (haystack needle : list Z) : option nat :=
  if starts_with needle haystack then Some O
  else match haystack with
       | [] => None
       | _ :: rest => option_map S (strstr rest needle)
       end.

(** The loop of [str_replace], for at most [rounds] rounds: [head] is the
    offset of the pointer [head] in [newstr].  The three [memcpy] copy the
    bytes before [tok], the replacement and the bytes after the
    occurrence.  [None]: the loop has not ended. *)
Fixpoint replace_loop (rounds : nat) (substr replacement newstr : list Z)
    (head : nat) : option (list Z) :=
  match rounds with
  | O => None
  | S k =>
      match strstr (skipn head newstr) substr with
      | None => Some newstr
      | Some offset =>
          let tok := (head + offset)%nat in
          let oldstr := newstr in
          let newstr :=
            firstn tok oldstr ++ replacement
            ++ firstn (List.length oldstr - List.length substr - tok)
                 (skipn (tok + List.length substr) oldstr) in
          replace_loop k substr replacement newstr
            (tok + List.length replacement)
      end
  end.

(** [str_replace]. *)
Definition str_replace (rounds : nat) (string : list Z)
    (substr replacement : option (list Z)) : option (list Z) :=
  match substr, replacement with
  | Some substr, Some replacement =>
      replace_loop rounds substr replacement string 0
  | _, _ => Some string
  end.

(** The characters of ["%02x "] for an [unsigned char]. *)
Definition hex_digit (d : Z) : Z := if d <? 10 then 48 + d else 87 + d.

Definition hex_and_space (q : Z) : list Z :=
  [hex_digit (q / 16); hex_digit (q mod 16); 32].

(** A store of [data] at offset [obfp] of the allocation [response]; there
    is none outside the allocation. *)
Definition store_at (response : list Z) (obfp : Z) (data : list Z)
  : option (list Z) :=
  if (0 <=? obfp)
     && (obfp + Z.of_nat (List.length data) <=? Z.of_nat (List.length response))
  then Some (firstn (Z.to_nat obfp) response ++ data
             ++ skipn (Z.to_nat obfp + List.length data) response)
  else None.

(** The loop of [debug_malloc_hex_cstring]: [snprintf(obfp, 4, "%02x ", *q)]
    stores three characters and a NUL. *)
Fixpoint hex_loop (packet response : list Z) (obfp : Z)
  : option (list Z * Z) :=
  match packet with
  | [] => Some (response, obfp)
  | q :: rest =>
      match store_at response obfp (hex_and_space q ++ [0]) with
      | Some response' => hex_loop rest response' (obfp + 3)
      | None => None
      end
  end.

(** [debug_malloc_hex_cstring]: [malloc size] is the block [malloc]
    returns for [size] bytes, with the bytes it happens to hold; the result
    is the whole block.  [None]: a store outside the block. *)
Definition debug_malloc_hex_cstring (malloc : nat -> list Z)
    (packet : list Z) : option (list Z) :=
  let nread := List.length packet in
  let response := malloc (nread * 3 + 1)%nat in
  match hex_loop packet response 0 with
  | Some (response', obfp) => store_at response' (obfp - 1) [0]
  | None => None
  end.

End CStr.

(** ** Buffers in the debug log (common.c, lines 577-607) *)

Module Dump.

Import CStr.

(** [buf[obfc]], a [char], as the [int] it is promoted to: whether [char]
    is signed is the compiler's choice. *)
Definition char_value (char_is_signed : bool) (byte : Z) : Z :=
  if char_is_signed && (128 <=? byte) then byte - 256 else byte.

Definition upper_hex_digit (d : Z) : Z := if d <? 10 then 48 + d else 55 + d.

(** The last [count] hexadecimal digits of [v], most significant first. *)
Fixpoint hex_digits (count : nat) (v : Z) : list Z :=
  match count with
  | O => []
  | S k => hex_digits k (v / 16) ++ [upper_hex_digit (v mod 16)]
  end.

(** Leading zeros are dropped while more than [keep] digits are left. *)
Fixpoint strip_zeros (keep : nat) (digits : list Z) : list Z :=
  match digits with
  | [] => []
  | d :: rest =>
      if (d =? 48) && (keep <? List.length digits)%nat
      then strip_zeros keep rest
      else digits
  end.

(** The characters of ["%02X"] for an [int], which is read as an
    [unsigned int] of 32 bits. *)
Definition printf_02X (v : Z) : list Z := strip_zeros 2 (hex_digits 8 (u32 v)).

(** [snprintf(obfp, size, ...)]: the bytes stored, [size - 1] characters at
    most and a NUL. *)
Definition snprintf (size : nat) (text : list Z) : list Z :=
  firstn (size - 1) text ++ [0].

(** The separator after the byte [obfc], if any: the bytes stored and the
    step of [obfp]. *)
Definition separator (obfc buf_len : Z) : option (list Z * Z) :=
  if negb (obfc =? buf_len - 1)
  then if obfc mod 32 =? 31 then Some (snprintf 5 [32; 124; 124; 32], 4)
       else if obfc mod 16 =? 15 then Some (snprintf 4 [32; 124; 32], 3)
       else if obfc mod 4 =? 3 then Some (snprintf 2 [32], 1)
       else None
  else None.

(** The loop, on the bytes of [buf] from [obfc] on. *)
Fixpoint dump_loop (char_is_signed : bool) (buf : list Z) (obfc buf_len : Z)
    (obf : list Z) (obfp : Z) : option (list Z * Z) :=
  match buf with
  | [] => Some (obf, obfp)
  | byte :: rest =>
      match store_at obf obfp
              (snprintf 3 (printf_02X (char_value char_is_signed byte))) with
      | None => None
      | Some obf1 =>
          match separator obfc buf_len with
          | Some (stored, step) =>
              match store_at obf1 (obfp + 2) stored with
              | None => None
              | Some obf2 =>
                  dump_loop char_is_signed rest (obfc + 1) buf_len obf2
                    (obfp + 2 + step)
              end
          | None =>
              dump_loop char_is_signed rest (obfc + 1) buf_len obf1 (obfp + 2)
          end
      end
  end.

(** What a call does as far as the log goes. *)
Inductive logged : Type :=
| Nothing
| Line (text : list Z)
| StoreOutsideBlock.

(** [_debug_print_buffer], for a buffer of fewer than [2^32] bytes: the
    string handed to [_debug].  [malloc size] is the block [malloc] returns
    for [size] bytes, with the bytes it happens to hold. *)
Definition _debug_print_buffer (char_is_signed : bool) (debuglev : Z)
    (malloc : nat -> list Z) (level : Z) (vbuf : list Z) : logged :=
  if level >? debuglev then Nothing
  else
    let buf_len := List.length vbuf in
    let obf := malloc (buf_len * 4 + 1)%nat in
    match dump_loop char_is_signed vbuf 0 (Z.of_nat buf_len) obf 0 with
    | None => StoreOutsideBlock
    | Some (obf1, obfp) =>
        match store_at obf1 obfp [0] with
        | None => StoreOutsideBlock
        | Some obf2 => Line (firstn (strlen obf2) obf2)
        end
    end.

End Dump.

(** * Properties *)

(** ** Machine integers *)

Lemma u64_range z : is_u64 (u64 z).
Proof. unfold is_u64, u64. apply Z.mod_pos_bound. lia. Qed.

Lemma u64_id z : is_u64 z -> u64 z = z.
Proof. unfold is_u64, u64. intros H. apply Z.mod_small. exact H. Qed.

Lemma i64_id z : is_i64 z -> i64 z = z.
Proof. unfold is_i64, i64. intros H. rewrite Z.mod_small; lia. Qed.

Lemma u64_bits z i : 0 <= i ->
  Z.testbit (u64 z) i = (i <? 64) && Z.testbit z i.
Proof.
  intros Hi. unfold u64. destruct (Z.ltb_spec i 64).
  - rewrite Z.mod_pow2_bits_low by lia. reflexivity.
  - rewrite Z.mod_pow2_bits_high by lia. reflexivity.
Qed.

Lemma is_u64_high_bits x i : is_u64 x -> 64 <= i -> Z.testbit x i = false.
Proof.
  intros Hx Hi. rewrite <- (u64_id x Hx). rewrite u64_bits by lia.
  destruct (Z.ltb_spec i 64); [lia | reflexivity].
Qed.

Lemma is_u64_of_bits x :
  0 <= x -> (forall i, 64 <= i -> Z.testbit x i = false) -> is_u64 x.
Proof.
  intros H0 Hb. unfold is_u64. split; [exact H0|].
  destruct (Z.eq_dec x 0) as [->|Hne]; [lia|].
  apply Z.log2_lt_pow2; [lia|].
  destruct (Z.lt_ge_cases (Z.log2 x) 64) as [Hlt|Hge]; [exact Hlt|].
  specialize (Hb (Z.log2 x) Hge).
  rewrite Z.bit_log2 in Hb by lia. discriminate.
Qed.

(** ** The dither source *)

Section RanFacts.

Import Ran.

(** The two halves of [rot] share no bit. *)
Lemma rot_bits x k i : is_u64 x -> 0 < k < 64 -> 0 <= i < 64 ->
  Z.testbit (rot x k) i = Z.testbit x ((i - k) mod 64).
Proof.
  intros Hx Hk Hi. unfold rot.
  rewrite Z.lor_spec, u64_bits, Z.shiftl_spec, Z.shiftr_spec by lia.
  replace (i <? 64) with true by (symmetry; apply Z.ltb_lt; lia).
  destruct (Z.lt_ge_cases i k) as [Hlt|Hge].
  - rewrite (Z.testbit_neg_r x (i - k)) by lia. cbn [andb orb].
    f_equal.
    replace (i - k) with (i + (64 - k) + (-1) * 64) by lia.
    rewrite Z.mod_add by lia. rewrite Z.mod_small by lia. reflexivity.
  - rewrite (is_u64_high_bits x (i + (64 - k))) by (auto; lia).
    rewrite orb_false_r. cbn [andb].
    rewrite Z.mod_small by lia. reflexivity.
Qed.

Lemma rot_halves_disjoint x k : is_u64 x -> 0 < k < 64 ->
  Z.land (u64 (Z.shiftl x k)) (Z.shiftr x (64 - k)) = 0.
Proof.
  intros Hx Hk. apply Z.bits_inj'. intros i Hi.
  rewrite Z.land_spec, Z.bits_0, u64_bits, Z.shiftl_spec, Z.shiftr_spec by lia.
  destruct (Z.lt_ge_cases i k) as [Hlt|Hge].
  - rewrite (Z.testbit_neg_r x (i - k)) by lia.
    rewrite andb_false_r. reflexivity.
  - rewrite (is_u64_high_bits x (i + (64 - k))) by (auto; lia).
    apply andb_false_r.
Qed.

(** The macro [rot] is the rotation of the specification. *)
Lemma rot_rotl x k : is_u64 x -> 0 < k < 64 -> rot x k = DitherSpec.rotl x k.
Proof.
  intros Hx Hk. unfold rot, DitherSpec.rotl.
  rewrite <- Z.lxor_lor by (apply rot_halves_disjoint; assumption).
  rewrite <- Z.add_nocarry_lxor by (apply rot_halves_disjoint; assumption).
  unfold u64. rewrite Z.shiftl_mul_pow2, Z.shiftr_div_pow2 by lia.
  reflexivity.
Qed.

Lemma rot_range x k : is_u64 x -> 0 < k < 64 -> is_u64 (rot x k).
Proof.
  intros Hx Hk. apply is_u64_of_bits.
  - unfold rot. apply Z.lor_nonneg. split.
    + apply u64_range.
    + apply Z.shiftr_nonneg. apply Hx.
  - intros i Hi. unfold rot.
    rewrite Z.lor_spec, u64_bits, Z.shiftr_spec by lia.
    replace (i <? 64) with false by (symmetry; apply Z.ltb_ge; lia).
    rewrite (is_u64_high_bits x (i + (64 - k))) by (auto; lia).
    reflexivity.
Qed.

Lemma lxor_range x y : is_u64 x -> is_u64 y -> is_u64 (Z.lxor x y).
Proof.
  intros Hx Hy. apply is_u64_of_bits.
  - apply Z.lxor_nonneg. unfold is_u64 in *. lia.
  - intros i Hi. rewrite Z.lxor_spec.
    rewrite (is_u64_high_bits x i), (is_u64_high_bits y i) by assumption.
    reflexivity.
Qed.

(** Every draw returns a [uint64_t] value, whatever the state. *)
Lemma ranval_value_range x : is_u64 (fst (ranval x)).
Proof. unfold ranval. cbn [fst]. apply u64_range. Qed.

Lemma ranval_wf x : wf x -> wf (snd (ranval x)).
Proof.
  intros (Ha & Hb & Hc & Hd). unfold ranval, wf. cbn [snd a b c d].
  repeat split; try apply u64_range.
  - apply lxor_range; [assumption|]. apply rot_range; [assumption|lia].
  - apply lxor_range; [assumption|]. apply rot_range; [assumption|lia].
Qed.

Lemma warm_up_wf n x : wf x -> wf (warm_up n x).
Proof.
  revert x. induction n as [|n IH]; intros x Hx; cbn [warm_up].
  - exact Hx.
  - apply IH. apply ranval_wf. exact Hx.
Qed.

Lemma raninit_wf x seed : is_u64 seed -> wf (raninit x seed).
Proof.
  intros Hs. unfold raninit. apply warm_up_wf.
  unfold wf. cbn [a b c d]. repeat split; try apply Hs; unfold is_u64; lia.
Qed.

(** A draw of the code is a draw of the specification. *)
Lemma ranval_refines x : wf x ->
  fst (ranval x) = fst (DitherSpec.draw (abs_state x)) /\
  abs_state (snd (ranval x)) = snd (DitherSpec.draw (abs_state x)).
Proof.
  intros (Ha & Hb & Hc & Hd).
  unfold ranval, DitherSpec.draw, abs_state, u64.
  cbn [fst snd a b c d DitherSpec.sa DitherSpec.sb DitherSpec.sc DitherSpec.sd].
  rewrite !rot_rotl by (assumption || lia).
  split; reflexivity.
Qed.

Lemma warm_up_refines n x : wf x ->
  abs_state (warm_up n x) =
  Nat.iter n (fun s => snd (DitherSpec.draw s)) (abs_state x).
Proof.
  revert x. induction n as [|n IH]; intros x Hx.
  - reflexivity.
  - cbn [warm_up]. rewrite IH by (apply ranval_wf; exact Hx).
    rewrite (proj2 (ranval_refines x Hx)).
    symmetry.
    apply Nat.iter_succ_r.
Qed.

Lemma draws_refine n x : wf x ->
  draws n x = DitherSpec.sequence n (abs_state x).
Proof.
  revert x. induction n as [|n IH]; intros x Hx.
  - reflexivity.
  - cbn [draws DitherSpec.sequence]. unfold r64u.
    destruct (ranval_refines x Hx) as [Hv Hs].
    destruct (ranval x) as [v x1] eqn:E. cbn [fst snd] in Hv, Hs.
    rewrite Hv, <- Hs. f_equal. apply IH.
    pose proof (ranval_wf x Hx) as Hw. rewrite E in Hw. exact Hw.
Qed.

End RanFacts.

(** The rotation of the specification moves bit [i - k] (modulo 64) to bit
    [i]. *)
Lemma rotl_bits x k i : is_u64 x -> 0 < k < 64 -> 0 <= i < 64 ->
  Z.testbit (DitherSpec.rotl x k) i = Z.testbit x ((i - k) mod 64).
Proof.
  intros Hx Hk Hi. rewrite <- rot_rotl by assumption.
  apply rot_bits; assumption.
Qed.

(** The state left by seeding does not depend on the state before it. *)
Lemma raninit_overwrites x1 x2 seed : Ran.raninit x1 seed = Ran.raninit x2 seed.
Proof. reflexivity. Qed.

(** C2.  Seeding with a [uint64_t] value [seed] leaves the state the
    specification describes: [a = 0xf1ea5eed], [b = c = d = seed], then 20
    draws whose values are dropped.  Every later draw follows the recurrence
    [e = a - rotl(b,7)], [a' = b xor rotl(c,13)], [b' = c + rotl(d,37)],
    [c' = d + e], [d' = e + a'] modulo [2^64] and returns [d'].  So the
    sequence drawn after seeding with [seed] is the same whatever the state
    was before: seeding again with [seed] reproduces it. *)
Theorem seeding_is_reproducible (seed : Z) (Hseed : is_u64 seed) :
  forall (x1 x2 : Ran.ranctx) (n : nat),
    abs_state (Ran.raninit x1 seed) = DitherSpec.seed seed /\
    Ran.draws n (Ran.raninit x1 seed) =
      DitherSpec.sequence n (DitherSpec.seed seed) /\
    Ran.draws n (Ran.raninit x2 seed) = Ran.draws n (Ran.raninit x1 seed).
Proof.
  intros x1 x2 n.
  assert (Hinit : abs_state (Ran.raninit x1 seed) = DitherSpec.seed seed).
  { unfold Ran.raninit, DitherSpec.seed.
    rewrite warm_up_refines.
    - reflexivity.
    - unfold Ran.wf. cbn [Ran.a Ran.b Ran.c Ran.d].
      repeat split; try apply Hseed; unfold is_u64; lia. }
  split; [exact Hinit|]. split.
  - rewrite draws_refine by (apply raninit_wf; exact Hseed).
    rewrite Hinit. reflexivity.
  - rewrite (raninit_overwrites x2 x1). reflexivity.
Qed.

Lemma seeding_is_reproducible_witness :
  is_u64 1 /\
  (abs_state (Ran.raninit (Ran.mk_ranctx 0 0 0 0) 1) = DitherSpec.seed 1 /\
   Ran.draws 3 (Ran.raninit (Ran.mk_ranctx 0 0 0 0) 1) =
     DitherSpec.sequence 3 (DitherSpec.seed 1) /\
   Ran.draws 3 (Ran.raninit (Ran.mk_ranctx 9 8 7 6) 1) =
     Ran.draws 3 (Ran.raninit (Ran.mk_ranctx 0 0 0 0) 1)).
Proof.
  assert (H : is_u64 1) by (unfold is_u64; lia).
  split; [exact H|].
  exact (seeding_is_reproducible 1 H (Ran.mk_ranctx 0 0 0 0)
           (Ran.mk_ranctx 9 8 7 6) 3%nat).
Defined.

(** ** The zero-frame generator *)

Lemma last_cons_default {A : Type} (x : A) (l : list A) (d : A) :
  List.last (x :: l) d = List.last l x.
Proof.
  revert x d. induction l as [|y l IH]; intros x d; [reflexivity|].
  change (List.last (x :: y :: l) d) with (List.last (y :: l) d).
  rewrite (IH y d), (IH y x). reflexivity.
Qed.

Section ZeroFacts.

Import Ran Zero.

(** [r64i] halves the value [ranval] returns, and stays in the non-negative
    half of [int64_t]. *)
Lemma r64i_spec rx :
  fst (r64i rx) = Z.shiftr (fst (ranval rx)) 1 /\
  snd (r64i rx) = snd (ranval rx) /\
  0 <= fst (r64i rx) < 2 ^ 63.
Proof.
  pose proof (ranval_value_range rx) as Hv.
  unfold r64i. destruct (ranval rx) as [v rx1]. cbn [fst snd] in *.
  assert (Hs : 0 <= Z.shiftr v 1 < 2 ^ 63).
  { rewrite Z.shiftr_div_pow2 by lia. unfold is_u64 in Hv.
    change (2 ^ 1) with 2. split.
    - apply Z.div_pos; lia.
    - apply Z.div_lt_upper_bound; lia. }
  rewrite i64_id by (unfold is_i64; lia).
  repeat split; lia.
Qed.

Lemma sample_bytes_returns host format hs :
  is_sentinel format = false ->
  exists bytes, sample_bytes host format hs = Returns bytes /\
                List.length bytes = sample_length format.
Proof.
  intros Hf. destruct format; try discriminate Hf;
    cbn [sample_bytes sample_length];
    try (eexists; split; [reflexivity|]; destruct host; reflexivity).
Qed.

Lemma dither_mask_returns format :
  is_sentinel format = false ->
  exists bits, bit_width format = Returns bits /\
               In bits [8; 16; 24; 32] /\
               dither_mask format = Returns (2 ^ (64 - bits) - 1).
Proof.
  intros Hf. unfold dither_mask.
  destruct format; try discriminate Hf; cbn [bit_width bind];
    eexists; (split; [reflexivity|]); (split; [cbn; tauto | reflexivity]).
Qed.

(** The loop returns on every format that is a sample encoding, after as
    many rounds as it was asked for. *)
Lemma loop_returns host format with_dither mask :
  is_sentinel format = false ->
  forall rounds rx previous,
  exists rx' last rds,
    loop host format with_dither mask rounds rx previous
      = Returns (rx', last, rds) /\
    List.length rds = rounds.
Proof.
  intros Hf. induction rounds as [|n IH]; intros rx previous.
  - exists rx, previous, []. split; reflexivity.
  - cbn [loop]. unfold loop_body.
    destruct (r64i rx) as [r rx1].
    destruct (sample_bytes_returns host format
                (hyper_sample with_dither mask r previous) Hf)
      as (bytes & Hb & _).
    rewrite Hb. cbn [bind drawn].
    destruct (IH rx1 r) as (rx' & last & rds & Hl & Hn).
    rewrite Hl. cbn [bind].
    eexists _, _, _. split; [reflexivity|]. cbn [List.length]. lia.
Qed.

(** A round that returns: the number drawn, the bytes stored and the rounds
    after it. *)
Lemma loop_succ_inv host format with_dither mask k rx previous rx' last rds :
  loop host format with_dither mask (S k) rx previous
    = Returns (rx', last, rds) ->
  exists bytes rest,
    sample_bytes host format
      (hyper_sample with_dither mask (fst (r64i rx)) previous)
      = Returns bytes /\
    loop host format with_dither mask k (snd (r64i rx)) (fst (r64i rx))
      = Returns (rx', last, rest) /\
    rds = mk_round (fst (r64i rx))
                   (tpdf mask (fst (r64i rx)) previous)
                   (hyper_sample with_dither mask (fst (r64i rx)) previous)
                   bytes :: rest.
Proof.
  cbn [loop]. unfold loop_body.
  destruct (r64i rx) as [r rx1]. cbn [fst snd].
  destruct (sample_bytes host format _) as [bytes|msg];
    cbn [bind drawn]; [|discriminate].
  destruct (loop host format with_dither mask k rx1 r)
    as [[[rx2 last2] rds2]|msg]; cbn [bind]; [|discriminate].
  intros H. inversion H; subst. exists bytes, rds2.
  repeat split; reflexivity.
Qed.

(** What the rounds of the loop draw and compute. *)
Lemma loop_rounds host format with_dither mask :
  forall rounds rx previous rx' last rds,
    loop host format with_dither mask rounds rx previous
      = Returns (rx', last, rds) ->
    map drawn rds = map (fun v => Z.shiftr v 1) (draws rounds rx) /\
    map dither_term rds = dither_terms mask previous (map drawn rds) /\
    map sample rds =
      map (fun t => if with_dither =? 0 then 0 else t) (map dither_term rds) /\
    last = List.last (map drawn rds) previous /\
    rx' = warm_up rounds rx.
Proof.
  induction rounds as [|n IH]; intros rx previous rx' last rds H.
  - cbn [loop] in H. inversion H; subst. repeat split; reflexivity.
  - apply loop_succ_inv in H. destruct H as (bytes & rest & _ & E & ->).
    destruct (r64i_spec rx) as (Hr & Hs & _).
    destruct (IH _ _ _ _ _ E) as (Hd & Ht & Hh & Hl & Hx).
    cbn [map drawn dither_term sample draws dither_terms warm_up].
    unfold r64u. rewrite Hs in *.
    destruct (ranval rx) as [v rx1] eqn:Ev. cbn [fst snd] in *.
    repeat split.
    + rewrite Hd, Hr. reflexivity.
    + rewrite Ht. reflexivity.
    + rewrite Hh. unfold hyper_sample.
      destruct (with_dither =? 0); reflexivity.
    + rewrite Hl. symmetry. apply last_cons_default.
    + exact Hx.
Qed.

End ZeroFacts.

Section ZeroClaims.

Import Ran Zero.

Lemma silent_sample host format :
  is_sentinel format = false ->
  sample_bytes host format 0 =
  Returns (repeat (silence_byte format) (sample_length format)).
Proof.
  intros Hf. destruct format; try discriminate Hf; destruct host; reflexivity.
Qed.

Lemma silent_loop host format mask :
  is_sentinel format = false ->
  forall rounds rx previous,
  exists rx' last rds,
    loop host format 0 mask rounds rx previous = Returns (rx', last, rds) /\
    concat (map stored rds) =
      repeat (silence_byte format) (rounds * sample_length format).
Proof.
  intros Hf. induction rounds as [|n IH]; intros rx previous.
  - exists rx, previous, []. split; reflexivity.
  - cbn [loop]. unfold loop_body.
    destruct (r64i rx) as [r rx1].
    change (hyper_sample 0 mask r previous) with 0.
    rewrite (silent_sample host format Hf). cbn [bind drawn].
    destruct (IH rx1 r) as (rx' & last & rds & Hl & Hb).
    rewrite Hl. cbn [bind].
    eexists _, _, _. split; [reflexivity|].
    cbn [map concat stored]. rewrite Hb, <- repeat_app. reflexivity.
Qed.

(** C1, as the code has it.  With dithering disabled, on every format that
    is a sample encoding and for every frame count, the call returns and every
    byte it writes is the byte of silence of the format: [0], except for
    [SPS_FORMAT_U8], whose samples are offset by 128 and are written as
    [128].  There are [sample_length] bytes for each of the
    [number_of_frames * 2] samples. *)
Theorem silence_without_dither host rx number_of_frames format previous :
  is_sentinel format = false ->
  exists rx' last,
    generate_zero_frames host rx number_of_frames format 0 previous =
    Returns (rx',
             repeat (silence_byte format)
                    (sample_count number_of_frames * sample_length format),
             last) /\
    (format <> SPS_FORMAT_U8 -> silence_byte format = 0) /\
    (format = SPS_FORMAT_U8 -> silence_byte format = 128).
Proof.
  intros Hf.
  destruct (dither_mask_returns format Hf) as (bits & _ & _ & Hm).
  destruct (silent_loop host format (2 ^ (64 - bits) - 1) Hf
              (sample_count number_of_frames) rx previous)
    as (rx' & last & rds & Hl & Hb).
  exists rx', last. split; [|split].
  - unfold generate_zero_frames, zero_frame_rounds.
    rewrite Hm. cbn [bind]. rewrite Hl. cbn [bind]. rewrite Hb. reflexivity.
  - intros Hne. destruct format; try reflexivity. contradiction.
  - intros ->. reflexivity.
Qed.

Lemma silence_without_dither_witness :
  is_sentinel SPS_FORMAT_S24_3LE = false /\
  exists rx' last,
    generate_zero_frames BigEndian (raninit (mk_ranctx 0 0 0 0) 1) 2
      SPS_FORMAT_S24_3LE 0 7 =
    Returns (rx',
             repeat (silence_byte SPS_FORMAT_S24_3LE)
                    (sample_count 2 * sample_length SPS_FORMAT_S24_3LE),
             last) /\
    (SPS_FORMAT_S24_3LE <> SPS_FORMAT_U8 ->
     silence_byte SPS_FORMAT_S24_3LE = 0) /\
    (SPS_FORMAT_S24_3LE = SPS_FORMAT_U8 ->
     silence_byte SPS_FORMAT_S24_3LE = 128).
Proof.
  split; [reflexivity|].
  exact (silence_without_dither BigEndian (raninit (mk_ranctx 0 0 0 0) 1) 2
           SPS_FORMAT_S24_3LE 7 eq_refl).
Defined.

(** C1, as it is stated, fails on [SPS_FORMAT_U8]: one frame of undithered
    silence is the two bytes [128; 128], not two zero bytes. *)
Lemma silence_u8_is_not_zero :
  is_sentinel SPS_FORMAT_U8 = false /\
  match
    generate_zero_frames LittleEndian (raninit (mk_ranctx 0 0 0 0) 1) 1
      SPS_FORMAT_U8 0 0
  with
  | Returns (_, buffer, _) => buffer
  | Dies _ => []
  end = [128; 128] /\
  match
    generate_zero_frames LittleEndian (raninit (mk_ranctx 0 0 0 0) 1) 1
      SPS_FORMAT_U8 0 0
  with
  | Returns (_, buffer, _) => buffer
  | Dies _ => []
  end <> [0; 0].
Proof. vm_compute. repeat split; try reflexivity. discriminate. Qed.

(** C3, as the code has it.  In every round the number drawn, which enters
    the dither term and becomes [previous_random_number], is the value the
    generator returns at that step shifted right by one bit; the dither term
    of a round is [(r & mask) - (previous & mask)] with [previous] the number
    drawn in the round before ([random_number_in] in the first round). *)
Theorem drawn_is_half_of_generator_output
    host rx number_of_frames format with_dither random_number_in :
  is_sentinel format = false ->
  exists mask rx' last rds,
    dither_mask format = Returns mask /\
    zero_frame_rounds host rx number_of_frames format with_dither
      random_number_in = Returns (rx', last, rds) /\
    map drawn rds =
      map (fun d' => Z.shiftr d' 1) (draws (sample_count number_of_frames) rx) /\
    map dither_term rds =
      dither_terms mask random_number_in (map drawn rds) /\
    last = List.last (map drawn rds) random_number_in.
Proof.
  intros Hf.
  destruct (dither_mask_returns format Hf) as (bits & _ & _ & Hm).
  destruct (loop_returns host format with_dither (2 ^ (64 - bits) - 1) Hf
              (sample_count number_of_frames) rx random_number_in)
    as (rx' & last & rds & Hl & _).
  destruct (loop_rounds _ _ _ _ _ _ _ _ _ _ Hl) as (Hd & Ht & _ & Hlast & _).
  exists (2 ^ (64 - bits) - 1), rx', last, rds.
  unfold zero_frame_rounds. rewrite Hm. cbn [bind].
  repeat split; assumption.
Qed.

Lemma drawn_is_half_of_generator_output_witness :
  is_sentinel SPS_FORMAT_S16_LE = false /\
  exists mask rx' last rds,
    dither_mask SPS_FORMAT_S16_LE = Returns mask /\
    zero_frame_rounds LittleEndian (raninit (mk_ranctx 0 0 0 0) 1) 1
      SPS_FORMAT_S16_LE 1 0 = Returns (rx', last, rds) /\
    map drawn rds =
      map (fun d' => Z.shiftr d' 1)
          (draws (sample_count 1) (raninit (mk_ranctx 0 0 0 0) 1)) /\
    map dither_term rds = dither_terms mask 0 (map drawn rds) /\
    last = List.last (map drawn rds) 0.
Proof.
  split; [reflexivity|].
  exact (drawn_is_half_of_generator_output LittleEndian
           (raninit (mk_ranctx 0 0 0 0) 1) 1 SPS_FORMAT_S16_LE 1 0 eq_refl).
Defined.

(** C3, as it is stated, fails: after seeding with 1, the two numbers drawn
    for one frame are not the two values the generator returns. *)
Lemma drawn_is_not_generator_output :
  match
    zero_frame_rounds LittleEndian (raninit (mk_ranctx 0 0 0 0) 1) 1
      SPS_FORMAT_S16_LE 1 0
  with
  | Returns (_, _, rds) => map drawn rds
  | Dies _ => []
  end = [6285246415849587876; 5119278865095269273] /\
  draws 2 (raninit (mk_ranctx 0 0 0 0) 1) =
    [12570492831699175752; 10238557730190538546] /\
  match
    zero_frame_rounds LittleEndian (raninit (mk_ranctx 0 0 0 0) 1) 1
      SPS_FORMAT_S16_LE 1 0
  with
  | Returns (_, _, rds) => map drawn rds
  | Dies _ => []
  end <> draws 2 (raninit (mk_ranctx 0 0 0 0) 1).
Proof. vm_compute. repeat split; try reflexivity. discriminate. Qed.

End ZeroClaims.

Section FormatSymmetry.

Import Ran Zero.

Lemma swap16_two x y rest : swap16 (x :: y :: rest) = y :: x :: swap16 rest.
Proof. reflexivity. Qed.

Lemma swap16_length bytes : List.length (swap16 bytes) = List.length bytes.
Proof.
  enough (H : forall n l, (List.length l <= n)%nat ->
                          List.length (swap16 l) = List.length l)
    by (apply (H (List.length bytes)); lia).
  induction n as [|n IH]; intros l Hl.
  - destruct l; [reflexivity | cbn in Hl; lia].
  - destruct l as [|x [|y rest]]; try reflexivity.
    rewrite swap16_two. cbn [List.length]. f_equal. f_equal.
    apply IH. cbn [List.length] in Hl. lia.
Qed.

(** Sample [i] of the exchanged buffer has the two bytes of sample [i] in
    the other order. *)
Lemma swap16_nth bytes : forall i,
  (2 * i + 1 < List.length bytes)%nat ->
  nth (2 * i) (swap16 bytes) 0 = nth (2 * i + 1) bytes 0 /\
  nth (2 * i + 1) (swap16 bytes) 0 = nth (2 * i) bytes 0.
Proof.
  enough (H : forall i l, (2 * i + 1 < List.length l)%nat ->
              nth (2 * i) (swap16 l) 0 = nth (2 * i + 1) l 0 /\
              nth (2 * i + 1) (swap16 l) 0 = nth (2 * i) l 0)
    by (intros i; apply H).
  induction i as [|i IH]; intros l Hl.
  - destruct l as [|x [|y rest]]; cbn [List.length] in Hl; try lia.
    split; reflexivity.
  - destruct l as [|x [|y rest]]; cbn [List.length] in Hl; try lia.
    rewrite swap16_two.
    replace (2 * S i)%nat with (S (S (2 * i))) by lia.
    cbn [nth Nat.add].
    apply IH. lia.
Qed.

Lemma loop_s16_le_be host with_dither mask :
  forall rounds rx previous,
  exists rx' last rds_le rds_be,
    loop host SPS_FORMAT_S16_LE with_dither mask rounds rx previous
      = Returns (rx', last, rds_le) /\
    loop host SPS_FORMAT_S16_BE with_dither mask rounds rx previous
      = Returns (rx', last, rds_be) /\
    concat (map stored rds_be) = swap16 (concat (map stored rds_le)) /\
    List.length (concat (map stored rds_le)) = (2 * rounds)%nat.
Proof.
  induction rounds as [|n IH]; intros rx previous.
  - exists rx, previous, [], []. repeat split; reflexivity.
  - cbn [loop]. unfold loop_body.
    destruct (r64i rx) as [r rx1].
    cbn [sample_bytes bind drawn].
    destruct (IH rx1 r) as (rx' & last & rl & rb & Hl & Hb & Hs & Hn).
    rewrite Hl, Hb. cbn [bind].
    eexists _, _, _, _. split; [reflexivity|]. split; [reflexivity|].
    cbn [map concat stored app]. rewrite swap16_two, Hs.
    split; [reflexivity|]. cbn [List.length]. lia.
Qed.

(** C8.  From the same generator state, with the same frame count, dither
    flag and [random_number_in], the calls for [SPS_FORMAT_S16_LE] and
    [SPS_FORMAT_S16_BE] return the same number and leave the same state, and
    write buffers of the same length, two bytes for each of the
    [number_of_frames * 2] samples; sample by sample the bytes of one are the
    bytes of the other exchanged. *)
Theorem s16_le_be_byte_swapped host rx number_of_frames with_dither previous :
  exists rx' last buffer_le buffer_be,
    generate_zero_frames host rx number_of_frames SPS_FORMAT_S16_LE
      with_dither previous = Returns (rx', buffer_le, last) /\
    generate_zero_frames host rx number_of_frames SPS_FORMAT_S16_BE
      with_dither previous = Returns (rx', buffer_be, last) /\
    List.length buffer_be = List.length buffer_le /\
    List.length buffer_le = (2 * sample_count number_of_frames)%nat /\
    buffer_be = swap16 buffer_le /\
    forall i, (i < sample_count number_of_frames)%nat ->
      nth (2 * i) buffer_be 0 = nth (2 * i + 1) buffer_le 0 /\
      nth (2 * i + 1) buffer_be 0 = nth (2 * i) buffer_le 0.
Proof.
  destruct (loop_s16_le_be host with_dither (Z.shiftl 1 (64 - 16) - 1)
              (sample_count number_of_frames) rx previous)
    as (rx' & last & rl & rb & Hl & Hb & Hs & Hn).
  exists rx', last, (concat (map stored rl)), (concat (map stored rb)).
  unfold generate_zero_frames, zero_frame_rounds, dither_mask.
  cbn [bit_width bind]. rewrite Hl, Hb. cbn [bind].
  split; [reflexivity|]. split; [reflexivity|].
  rewrite Hs, swap16_length.
  split; [reflexivity|]. split; [exact Hn|]. split; [reflexivity|].
  intros i Hi. apply swap16_nth. lia.
Qed.

End FormatSymmetry.

Section DitherBounds.

Import Ran Zero.

(** Masking with [2^n - 1] keeps the low [n] bits of a number of either
    sign. *)
Lemma land_mask_range x n : 0 <= n ->
  0 <= Z.land x (2 ^ n - 1) <= 2 ^ n - 1.
Proof.
  intros Hn.
  replace (2 ^ n - 1) with (Z.ones n) by (rewrite Z.ones_equiv; lia).
  rewrite Z.land_ones by exact Hn.
  pose proof (Z.mod_pos_bound x (2 ^ n) ltac:(apply Z.pow_pos_nonneg; lia)).
  rewrite Z.ones_equiv. lia.
Qed.

Lemma tpdf_range n r previous : 0 <= n ->
  - (2 ^ n - 1) <= tpdf (2 ^ n - 1) r previous <= 2 ^ n - 1.
Proof.
  intros Hn. unfold tpdf.
  pose proof (land_mask_range r n Hn).
  pose proof (land_mask_range previous n Hn).
  lia.
Qed.

Lemma hyper_sample_range n with_dither r previous : 0 <= n ->
  - (2 ^ n - 1) <= hyper_sample with_dither (2 ^ n - 1) r previous
    <= 2 ^ n - 1.
Proof.
  intros Hn. unfold hyper_sample.
  pose proof (tpdf_range n r previous Hn).
  assert (0 < 2 ^ n) by (apply Z.pow_pos_nonneg; lia).
  destruct (with_dither =? 0); lia.
Qed.

Lemma loop_bounded host format with_dither n : 0 <= n ->
  forall rounds rx previous rx' last rds,
    loop host format with_dither (2 ^ n - 1) rounds rx previous
      = Returns (rx', last, rds) ->
    Forall (fun rd => - (2 ^ n - 1) <= dither_term rd <= 2 ^ n - 1 /\
                      - (2 ^ n - 1) <= sample rd <= 2 ^ n - 1) rds.
Proof.
  intros Hn. induction rounds as [|k IH]; intros rx previous rx' last rds H.
  - cbn [loop] in H. inversion H. constructor.
  - apply loop_succ_inv in H. destruct H as (bytes & rest & _ & E & ->).
    constructor.
    + cbn [dither_term sample]. split.
      * apply tpdf_range. exact Hn.
      * apply hyper_sample_range. exact Hn.
    + eapply IH. exact E.
Qed.

(** C9.  On a format that is a sample encoding, of bit width 8, 16, 24 or
    32, the mask is [2^(64 - width) - 1], and for every number drawn and
    every previous number, negative ones included, the dither term
    [(r & mask) - (previous & mask)] lies between [- mask] and [mask]; so
    does the sample before it is shifted, with or without dither, in every
    round of every call. *)
Theorem dither_term_bounded format :
  is_sentinel format = false ->
  exists bits mask,
    bit_width format = Returns bits /\
    In bits [8; 16; 24; 32] /\
    mask = 2 ^ (64 - bits) - 1 /\
    dither_mask format = Returns mask /\
    (forall r previous, - mask <= tpdf mask r previous <= mask) /\
    (forall with_dither r previous,
        - mask <= hyper_sample with_dither mask r previous <= mask) /\
    (forall host rx number_of_frames with_dither previous rx' last rds,
        zero_frame_rounds host rx number_of_frames format with_dither previous
          = Returns (rx', last, rds) ->
        Forall (fun rd => - mask <= dither_term rd <= mask /\
                          - mask <= sample rd <= mask) rds).
Proof.
  intros Hf.
  destruct (dither_mask_returns format Hf) as (bits & Hb & Hin & Hm).
  assert (Hn : 0 <= 64 - bits).
  { cbn [In] in Hin. lia. }
  exists bits, (2 ^ (64 - bits) - 1).
  split; [exact Hb|]. split; [exact Hin|]. split; [reflexivity|].
  split; [exact Hm|]. split; [|split].
  - intros r previous. apply tpdf_range. exact Hn.
  - intros with_dither r previous. apply hyper_sample_range. exact Hn.
  - intros host rx nf with_dither previous rx' last rds H.
    unfold zero_frame_rounds in H. rewrite Hm in H. cbn [bind] in H.
    eapply loop_bounded; eassumption.
Qed.

Lemma dither_term_bounded_witness :
  is_sentinel SPS_FORMAT_S24_BE = false /\
  exists bits mask,
    bit_width SPS_FORMAT_S24_BE = Returns bits /\
    In bits [8; 16; 24; 32] /\
    mask = 2 ^ (64 - bits) - 1 /\
    dither_mask SPS_FORMAT_S24_BE = Returns mask /\
    (forall r previous, - mask <= tpdf mask r previous <= mask) /\
    (forall with_dither r previous,
        - mask <= hyper_sample with_dither mask r previous <= mask) /\
    (forall host rx number_of_frames with_dither previous rx' last rds,
        zero_frame_rounds host rx number_of_frames SPS_FORMAT_S24_BE
          with_dither previous = Returns (rx', last, rds) ->
        Forall (fun rd => - mask <= dither_term rd <= mask /\
                          - mask <= sample rd <= mask) rds).
Proof.
  split; [reflexivity|].
  exact (dither_term_bounded SPS_FORMAT_S24_BE eq_refl).
Defined.

Lemma loop_drawn_range host format with_dither mask :
  forall rounds rx previous rx' last rds,
    loop host format with_dither mask rounds rx previous
      = Returns (rx', last, rds) ->
    Forall (fun rd => 0 <= drawn rd < 2 ^ 63) rds /\
    (rounds = 0%nat -> last = previous) /\
    (rounds <> 0%nat -> 0 <= last < 2 ^ 63).
Proof.
  induction rounds as [|k IH]; intros rx previous rx' last rds H.
  - cbn [loop] in H. inversion H; subst.
    split; [constructor|]. split; [reflexivity|]. intros Hne. contradiction.
  - apply loop_succ_inv in H. destruct H as (bytes & rest & _ & E & ->).
    destruct (r64i_spec rx) as (_ & _ & Hr).
    destruct (IH _ _ _ _ _ E) as (Hall & Hz & Hnz).
    split; [|split].
    + constructor; [exact Hr | exact Hall].
    + intros Habs. discriminate Habs.
    + intros _. destruct k as [|k'].
      * rewrite (Hz eq_refl). exact Hr.
      * apply Hnz. discriminate.
Qed.

Lemma sample_count_positive number_of_frames :
  1 <= number_of_frames < 2 ^ 63 -> sample_count number_of_frames <> 0%nat.
Proof.
  intros H. unfold sample_count, u64.
  rewrite Z.mod_small by lia. lia.
Qed.

(** C10, as the code has it.  Every number drawn in the generator is the
    value of [ranval] shifted right by one bit, so it lies in [0, 2^63).
    The value a call returns is the number drawn in its last round: it is
    non-negative whenever the loop runs at least once, which it does for
    every frame count from 1 up to [2^63 - 1]; when [number_of_frames * 2]
    is zero in [size_t] the loop does not run and the call returns
    [random_number_in] as it is. *)
Theorem last_random_is_non_negative
    host rx number_of_frames format with_dither random_number_in :
  is_sentinel format = false ->
  (forall rx0, fst (r64i rx0) = Z.shiftr (fst (ranval rx0)) 1 /\
               0 <= fst (r64i rx0) < 2 ^ 63) /\
  exists rx' last rds,
    zero_frame_rounds host rx number_of_frames format with_dither
      random_number_in = Returns (rx', last, rds) /\
    generate_zero_frames host rx number_of_frames format with_dither
      random_number_in = Returns (rx', concat (map stored rds), last) /\
    Forall (fun rd => 0 <= drawn rd < 2 ^ 63) rds /\
    (1 <= number_of_frames < 2 ^ 63 -> 0 <= last < 2 ^ 63) /\
    (sample_count number_of_frames <> 0%nat -> 0 <= last < 2 ^ 63) /\
    (sample_count number_of_frames = 0%nat -> last = random_number_in).
Proof.
  intros Hf. split.
  - intros rx0. destruct (r64i_spec rx0) as (H1 & _ & H2). split; assumption.
  - destruct (dither_mask_returns format Hf) as (bits & _ & _ & Hm).
    destruct (loop_returns host format with_dither (2 ^ (64 - bits) - 1) Hf
                (sample_count number_of_frames) rx random_number_in)
      as (rx' & last & rds & Hl & _).
    destruct (loop_drawn_range _ _ _ _ _ _ _ _ _ _ Hl) as (Hall & Hz & Hnz).
    exists rx', last, rds.
    unfold generate_zero_frames, zero_frame_rounds.
    rewrite Hm. cbn [bind]. rewrite Hl. cbn [bind].
    repeat split; try reflexivity; try assumption;
      try (apply Hnz; try assumption; apply sample_count_positive; assumption);
      try (apply Hz; assumption).
Qed.

Lemma last_random_is_non_negative_witness :
  is_sentinel SPS_FORMAT_S32 = false /\
  (forall rx0, fst (r64i rx0) = Z.shiftr (fst (ranval rx0)) 1 /\
               0 <= fst (r64i rx0) < 2 ^ 63) /\
  exists rx' last rds,
    zero_frame_rounds LittleEndian (raninit (mk_ranctx 0 0 0 0) 1) 1
      SPS_FORMAT_S32 1 (-5) = Returns (rx', last, rds) /\
    generate_zero_frames LittleEndian (raninit (mk_ranctx 0 0 0 0) 1) 1
      SPS_FORMAT_S32 1 (-5) = Returns (rx', concat (map stored rds), last) /\
    Forall (fun rd => 0 <= drawn rd < 2 ^ 63) rds /\
    (1 <= 1 < 2 ^ 63 -> 0 <= last < 2 ^ 63) /\
    (sample_count 1 <> 0%nat -> 0 <= last < 2 ^ 63) /\
    (sample_count 1 = 0%nat -> last = -5).
Proof.
  split; [reflexivity|].
  exact (last_random_is_non_negative LittleEndian
           (raninit (mk_ranctx 0 0 0 0) 1) 1 SPS_FORMAT_S32 1 (-5) eq_refl).
Defined.

(** C10, as it is stated, fails when [number_of_frames * 2] wraps to zero in
    [size_t]: for [2^63] frames the loop does not run, nothing is written and
    a negative [random_number_in] is returned. *)
Lemma last_random_negative_on_wrap :
  1 <= 2 ^ 63 < 2 ^ 64 /\
  is_sentinel SPS_FORMAT_S16_LE = false /\
  generate_zero_frames LittleEndian (raninit (mk_ranctx 0 0 0 0) 1) (2 ^ 63)
    SPS_FORMAT_S16_LE 1 (-1)
  = Returns (raninit (mk_ranctx 0 0 0 0) 1, [], -1) /\
  -1 < 0.
Proof.
  split; [lia|]. split; [reflexivity|]. split; [|lia].
  vm_compute. reflexivity.
Qed.

End DitherBounds.

(** ** The volume profiles: the domain of the three functions *)

Section DomainContract.

Import Vol.

Context {D : Type} {ops : Double D}.

(** [-144.0] is outside [-30.0, 0.0] and equal to itself. *)
Hypothesis mute_out_of_range : in_range (of_long (-144)) = false.
Hypothesis mute_is_mute : not_mute (of_long (-144)) = false.



End DomainContract.

Section RealReading.

Import Vol.
Local Open Scope R_scope.











End RealReading.

Section Binary64Reading.

Import Vol.



End Binary64Reading.

Section DomainClaim.

Import Vol.



End DomainClaim.

(** ** The volume profiles in the real numbers *)

Section FlatProfile.

Import Vol.
Local Open Scope R_scope.





End FlatProfile.

Section StandardProfile.

Import Vol.
Local Open Scope R_scope.














(** The Standard profile evaluated in binary64 for [min_db = -6000] and
    [max_db = 0]. *)
Example standard_profile_binary64 :
  vol2attn 0%float 0 (-6000) = Returns (0%float, []) /\
  vol2attn (-5)%float 0 (-6000) = Returns ((-500)%float, []) /\
  vol2attn (-15)%float 0 (-6000) = Returns ((-1800)%float, []) /\
  vol2attn (-30)%float 0 (-6000) = Returns ((-6000)%float, []).
Proof. repeat split; vm_compute; reflexivity. Qed.

End StandardProfile.

Section TaperedProfile.

Import Vol.
Local Open Scope R_scope.






End TaperedProfile.

(** ** The tapered profile in binary64 *)

Section TaperedBinary64.

Import Vol.

(** Whatever the arithmetic and the logarithm, when the tapered setting is
    below the flat one the function returns the flat one, which it computes
    as [min_db + (max_db - min_db) * vol_pct]. *)
Lemma tapered_returns_flat_setting {D : Type} {ops : Double D}
    (log10 : D -> D) (vol : D) (max_db min_db : Z) :
  let vol_pct := fsub (of_long 1) (fdiv vol (of_long (-30))) in
  let flat_setting :=
    fadd (of_long min_db) (fmul (of_long (max_db - min_db)) vol_pct) in
  let vol_setting :=
    fadd (of_long max_db)
        (fdiv (fmul (of_long 1000) (log10 vol_pct)) (log10 (of_long 2))) in
  in_range vol = true ->
  fle vol_pct (of_long 0) = false ->
  flt vol_setting flat_setting = true ->
  dasl_tapered_vol2attn log10 vol max_db min_db
    = (flat_setting, [dasl_flat_setting]).
Proof.
  intros vol_pct flat_setting vol_setting Hr Hp Hlt.
  unfold dasl_tapered_vol2attn. rewrite Hr.
  fold vol_pct. rewrite Hp. fold flat_setting. fold vol_setting.
  rewrite Hlt. reflexivity.
Qed.


End TaperedBinary64.

(** ** Further properties of the zero-frame generator *)

Section ZeroFurther.

Import Ran Zero.

(** X1.  A sentinel format ends the process before anything is drawn or
    written, whatever the frame count. *)
Theorem sentinel_format_dies
    host rx number_of_frames format with_dither previous :
  is_sentinel format = true ->
  exists message,
    generate_zero_frames host rx number_of_frames format with_dither previous
      = Dies message.
Proof.
  intros Hf. unfold generate_zero_frames, zero_frame_rounds, dither_mask.
  destruct format; try discriminate Hf; cbn [bit_width bind];
    eexists; reflexivity.
Qed.

Lemma sentinel_format_dies_witness :
  is_sentinel SPS_FORMAT_AUTO = true /\
  exists message,
    generate_zero_frames LittleEndian (raninit (mk_ranctx 0 0 0 0) 1) 0
      SPS_FORMAT_AUTO 1 0 = Dies message.
Proof.
  split; [reflexivity|].
  exact (sentinel_format_dies LittleEndian (raninit (mk_ranctx 0 0 0 0) 1) 0
           SPS_FORMAT_AUTO 1 0 eq_refl).
Defined.

(** X2.  No frame: nothing is drawn, nothing is written and
    [random_number_in] is returned. *)
Theorem zero_frames_is_empty host rx format with_dither previous :
  is_sentinel format = false ->
  generate_zero_frames host rx 0 format with_dither previous
    = Returns (rx, [], previous).
Proof.
  intros Hf. unfold generate_zero_frames, zero_frame_rounds, dither_mask.
  destruct format; try discriminate Hf; reflexivity.
Qed.

Lemma zero_frames_is_empty_witness :
  is_sentinel SPS_FORMAT_S16 = false /\
  generate_zero_frames BigEndian (mk_ranctx 1 2 3 4) 0 SPS_FORMAT_S16 1 (-9)
    = Returns (mk_ranctx 1 2 3 4, [], -9).
Proof.
  split; [reflexivity|].
  exact (zero_frames_is_empty BigEndian (mk_ranctx 1 2 3 4) SPS_FORMAT_S16 1
           (-9) eq_refl).
Defined.

Lemma sample_bytes_length host format hs bytes :
  sample_bytes host format hs = Returns bytes ->
  List.length bytes = sample_length format.
Proof.
  intros H. destruct (is_sentinel format) eqn:Hf.
  - destruct format; try discriminate Hf; discriminate H.
  - destruct (sample_bytes_returns host format hs Hf) as (b & Hb & Hl).
    rewrite Hb in H. assert (b = bytes) by congruence. subst b. exact Hl.
Qed.

Lemma loop_buffer_length host format with_dither mask :
  forall rounds rx previous rx' last rds,
    loop host format with_dither mask rounds rx previous
      = Returns (rx', last, rds) ->
    List.length (concat (map stored rds)) = (rounds * sample_length format)%nat.
Proof.
  induction rounds as [|k IH]; intros rx previous rx' last rds H.
  - cbn [loop] in H. inversion H. reflexivity.
  - apply loop_succ_inv in H. destruct H as (bytes & rest & Hb & E & ->).
    cbn [map concat stored].
    rewrite length_app, (IH _ _ _ _ _ E), (sample_bytes_length _ _ _ _ Hb).
    reflexivity.
Qed.

(** X3.  With or without dither, a call writes [sample_length] bytes for
    each of its [number_of_frames * 2] samples and leaves the generator in
    the state that many draws lead to. *)
Theorem buffer_length_and_state
    host rx number_of_frames format with_dither previous :
  is_sentinel format = false ->
  exists buffer last,
    generate_zero_frames host rx number_of_frames format with_dither previous
      = Returns (warm_up (sample_count number_of_frames) rx, buffer, last) /\
    List.length buffer
      = (sample_count number_of_frames * sample_length format)%nat.
Proof.
  intros Hf.
  destruct (dither_mask_returns format Hf) as (bits & _ & _ & Hm).
  destruct (loop_returns host format with_dither (2 ^ (64 - bits) - 1) Hf
              (sample_count number_of_frames) rx previous)
    as (rx' & last & rds & Hl & _).
  destruct (loop_rounds _ _ _ _ _ _ _ _ _ _ Hl) as (_ & _ & _ & _ & Hx).
  exists (concat (map stored rds)), last.
  unfold generate_zero_frames, zero_frame_rounds.
  rewrite Hm. cbn [bind]. rewrite Hl. cbn [bind]. subst rx'.
  split; [reflexivity|].
  eapply loop_buffer_length. exact Hl.
Qed.

Lemma buffer_length_and_state_witness :
  is_sentinel SPS_FORMAT_S24_3BE = false /\
  exists buffer last,
    generate_zero_frames LittleEndian (raninit (mk_ranctx 0 0 0 0) 1) 3
      SPS_FORMAT_S24_3BE 1 0
      = Returns (warm_up (sample_count 3) (raninit (mk_ranctx 0 0 0 0) 1),
                 buffer, last) /\
    List.length buffer
      = (sample_count 3 * sample_length SPS_FORMAT_S24_3BE)%nat.
Proof.
  split; [reflexivity|].
  exact (buffer_length_and_state LittleEndian (raninit (mk_ranctx 0 0 0 0) 1)
           3 SPS_FORMAT_S24_3BE 1 0 eq_refl).
Defined.

(** X4.  A negative sample in the native 24-bit format is stored as a
    sign-extended [int32_t]: its fourth byte is [255], where
    [SPS_FORMAT_S24_LE] stores [0]. *)
Theorem native_s24_sign_extends (hs : Z) :
  - 2 ^ 40 <= hs < 0 ->
  sample_bytes LittleEndian SPS_FORMAT_S24 hs = Returns [255; 255; 255; 255] /\
  sample_bytes BigEndian SPS_FORMAT_S24 hs = Returns [255; 255; 255; 255] /\
  sample_bytes LittleEndian SPS_FORMAT_S24_LE hs = Returns [255; 255; 255; 0].
Proof.
  intros H.
  assert (H40 : Z.shiftr hs (64 - 24) = -1).
  { rewrite Z.shiftr_div_pow2 by lia. change (64 - 24) with 40.
    symmetry. apply (Z.div_unique hs (2 ^ 40) (-1) (hs + 2 ^ 40)); lia. }
  assert (H48 : Z.shiftr hs (64 - 24 + 8) = -1).
  { rewrite Z.shiftr_div_pow2 by lia. change (64 - 24 + 8) with 48.
    symmetry. apply (Z.div_unique hs (2 ^ 48) (-1) (hs + 2 ^ 48)); lia. }
  assert (H56 : Z.shiftr hs (64 - 24 + 16) = -1).
  { rewrite Z.shiftr_div_pow2 by lia. change (64 - 24 + 16) with 56.
    symmetry. apply (Z.div_unique hs (2 ^ 56) (-1) (hs + 2 ^ 56)); lia. }
  cbn [sample_bytes]. rewrite H40, H48, H56.
  repeat split; reflexivity.
Qed.

Lemma native_s24_sign_extends_witness :
  - 2 ^ 40 <= -5 < 0 /\
  sample_bytes LittleEndian SPS_FORMAT_S24 (-5)
    = Returns [255; 255; 255; 255] /\
  sample_bytes BigEndian SPS_FORMAT_S24 (-5) = Returns [255; 255; 255; 255] /\
  sample_bytes LittleEndian SPS_FORMAT_S24_LE (-5)
    = Returns [255; 255; 255; 0].
Proof.
  assert (H : - 2 ^ 40 <= -5 < 0) by lia.
  split; [exact H|].
  exact (native_s24_sign_extends (-5) H).
Defined.

End ZeroFurther.

(** ** Differences of 32-bit counters *)

Section Mod32Facts.

Import Mod32.

Lemma i32_u32 z : i32 (u32 z) = i32 z.
Proof.
  unfold i32, u32. change (2 ^ 32) with 4294967296.
  change (2 ^ 31) with 2147483648.
  Z.div_mod_to_equations. lia.
Qed.

Lemma i32_id z : is_i32 z -> i32 z = z.
Proof.
  unfold is_i32, i32. change (2 ^ 32) with 4294967296.
  change (2 ^ 31) with 2147483648. intros H.
  Z.div_mod_to_equations. lia.
Qed.

Lemma i32_range z : is_i32 (i32 z).
Proof.
  unfold is_i32, i32. change (2 ^ 32) with 4294967296.
  change (2 ^ 31) with 2147483648.
  Z.div_mod_to_equations. lia.
Qed.

(** X6.  A counter that is [d] ahead of [b] modulo [2^32], with [d] an
    [int32_t], is found [d] ahead: the difference is the signed distance,
    whether or not the counter wrapped in between. *)
Theorem mod32_difference_recovers_offset (b d : Z) :
  is_i32 d ->
  mod32Difference (u32 (b + d)) b = d.
Proof.
  intros Hd. unfold mod32Difference. rewrite i32_u32.
  rewrite <- (i32_id d Hd) at 2.
  unfold i32, u32. change (2 ^ 32) with 4294967296.
  change (2 ^ 31) with 2147483648.
  Z.div_mod_to_equations. lia.
Qed.

Lemma mod32_difference_recovers_offset_witness :
  is_i32 (-16) /\ mod32Difference (u32 (5 + -16)) 5 = -16.
Proof.
  assert (H : is_i32 (-16)) by (unfold is_i32; lia).
  split; [exact H|].
  exact (mod32_difference_recovers_offset 5 (-16) H).
Defined.

(** X7.  Exchanging the arguments negates the difference, except when the
    two counters are exactly [2^31] apart: then each is reported [2^31]
    behind the other. *)
Theorem mod32_difference_exchanged (a b : Z) :
  mod32Difference b a
    = if mod32Difference a b =? - 2 ^ 31 then - 2 ^ 31
      else - mod32Difference a b.
Proof.
  unfold mod32Difference. rewrite !i32_u32.
  destruct (Z.eqb_spec (i32 (a - b)) (- 2 ^ 31)) as [E|E];
    revert E; unfold i32; change (2 ^ 32) with 4294967296;
    change (2 ^ 31) with 2147483648; intros E;
    Z.div_mod_to_equations; lia.
Qed.

End Mod32Facts.

(** ** Integers in network byte order *)

Section NetFacts.

Import Zero Net.

Lemma be_value_app l x : be_value (l ++ [x]) = be_value l * 2 ^ 8 + x.
Proof. unfold be_value. rewrite fold_left_app. reflexivity. Qed.

Lemma be_value_le_bytes width :
  forall v, be_value (rev (le_bytes width v)) = v mod 2 ^ (8 * Z.of_nat width).
Proof.
  induction width as [|k IH]; intros v.
  - cbn. symmetry. apply Z.mod_1_r.
  - cbn [le_bytes rev]. rewrite be_value_app, IH.
    rewrite Z.shiftr_div_pow2 by lia. unfold u8.
    replace (8 * Z.of_nat (S k)) with (8 + 8 * Z.of_nat k) by lia.
    rewrite Z.pow_add_r by lia.
    rewrite (Z.rem_mul_r v (2 ^ 8) (2 ^ (8 * Z.of_nat k))) by lia.
    lia.
Qed.

Lemma be_value_four b0 b1 b2 b3 :
  be_value [b0; b1; b2; b3] = b0 * 2 ^ 24 + b1 * 2 ^ 16 + b2 * 2 ^ 8 + b3.
Proof. unfold be_value. cbn [fold_left]. lia. Qed.

Lemma le_bytes_four b0 b1 b2 b3 :
  is_u8 b0 -> is_u8 b1 -> is_u8 b2 -> is_u8 b3 ->
  le_bytes 4 (b3 * 2 ^ 24 + b2 * 2 ^ 16 + b1 * 2 ^ 8 + b0) = [b0; b1; b2; b3].
Proof.
  unfold is_u8. intros H0 H1 H2 H3. cbn [le_bytes].
  rewrite !Z.shiftr_shiftr by lia. rewrite !Z.shiftr_div_pow2 by lia.
  unfold u8. cbn [Z.add Pos.add Pos.succ].
  change (2 ^ 24) with 16777216. change (2 ^ 16) with 65536.
  change (2 ^ 8) with 256 in *.
  repeat f_equal; Z.div_mod_to_equations; lia.
Qed.

Lemma le_bytes_two b0 b1 :
  is_u8 b0 -> is_u8 b1 -> le_bytes 2 (b1 * 2 ^ 8 + b0) = [b0; b1].
Proof.
  unfold is_u8. intros H0 H1. cbn [le_bytes].
  rewrite !Z.shiftr_div_pow2 by lia. unfold u8.
  change (2 ^ 8) with 256 in *.
  repeat f_equal; Z.div_mod_to_equations; lia.
Qed.

Lemma nctohl_value host b0 b1 b2 b3 rest :
  is_u8 b0 -> is_u8 b1 -> is_u8 b2 -> is_u8 b3 ->
  nctohl host (b0 :: b1 :: b2 :: b3 :: rest)
    = Some (b0 * 2 ^ 24 + b1 * 2 ^ 16 + b2 * 2 ^ 8 + b3).
Proof.
  intros H0 H1 H2 H3. unfold nctohl, bytes_at.
  cbn [List.length Nat.leb firstn]. f_equal.
  destruct host; cbn [ntoh holder_value rev app].
  - rewrite (be_value_four b3 b2 b1 b0), le_bytes_four by assumption.
    apply be_value_four.
  - apply be_value_four.
Qed.

Lemma nctohs_value host b0 b1 rest :
  is_u8 b0 -> is_u8 b1 ->
  nctohs host (b0 :: b1 :: rest) = Some (b0 * 2 ^ 8 + b1).
Proof.
  intros H0 H1. unfold nctohs, bytes_at.
  cbn [List.length Nat.leb firstn]. f_equal.
  destruct host; cbn [ntoh holder_value rev app].
  - replace (be_value [b1; b0]) with (b1 * 2 ^ 8 + b0)
      by (unfold be_value; cbn [fold_left]; lia).
    rewrite le_bytes_two by assumption. unfold be_value. cbn [fold_left]. lia.
  - unfold be_value. cbn [fold_left]. lia.
Qed.

(** X8.  [nctohl] and [nctohs] read the bytes most significant first,
    whatever the byte order of the machine, and look at no byte after the
    fourth, or the second. *)
Theorem network_order_reads host b0 b1 b2 b3 rest :
  is_u8 b0 -> is_u8 b1 -> is_u8 b2 -> is_u8 b3 ->
  nctohl host (b0 :: b1 :: b2 :: b3 :: rest)
    = Some (b0 * 2 ^ 24 + b1 * 2 ^ 16 + b2 * 2 ^ 8 + b3) /\
  nctohs host (b0 :: b1 :: rest) = Some (b0 * 2 ^ 8 + b1).
Proof.
  intros H0 H1 H2 H3. split.
  - apply nctohl_value; assumption.
  - apply nctohs_value; assumption.
Qed.

Lemma network_order_reads_witness :
  is_u8 1 /\ is_u8 2 /\ is_u8 3 /\ is_u8 4 /\
  nctohl LittleEndian [1; 2; 3; 4; 5]
    = Some (1 * 2 ^ 24 + 2 * 2 ^ 16 + 3 * 2 ^ 8 + 4) /\
  nctohs LittleEndian [1; 2; 5] = Some (1 * 2 ^ 8 + 2).
Proof.
  assert (H1 : is_u8 1) by (unfold is_u8; lia).
  assert (H2 : is_u8 2) by (unfold is_u8; lia).
  assert (H3 : is_u8 3) by (unfold is_u8; lia).
  assert (H4 : is_u8 4) by (unfold is_u8; lia).
  split; [exact H1|]. split; [exact H2|]. split; [exact H3|].
  split; [exact H4|].
  exact (network_order_reads LittleEndian 1 2 3 4 [5] H1 H2 H3 H4).
Defined.

Lemma u8_is_u8 z : is_u8 (u8 z).
Proof. unfold is_u8, u8. apply Z.mod_pos_bound. lia. Qed.

(** X9.  [nctoh64] undoes the big-endian layout of a [uint64_t]: from the
    eight bytes of [v], most significant first, it reads [v] on either
    machine. *)
Theorem nctoh64_round_trip host v rest :
  is_u64 v ->
  nctoh64 host (rev (le_bytes 8 v) ++ rest) = Some v.
Proof.
  intros Hv. unfold nctoh64. cbn [le_bytes rev app skipn].
  rewrite !nctohl_value by apply u8_is_u8. f_equal.
  rewrite <- !be_value_four.
  set (w := Z.shiftr (Z.shiftr (Z.shiftr (Z.shiftr v 8) 8) 8) 8).
  change (u64 (u64 (Z.shiftl (be_value (rev (le_bytes 4 w))) 32)
               + be_value (rev (le_bytes 4 v))) = v).
  rewrite !be_value_le_bytes. subst w.
  rewrite !Z.shiftr_shiftr by lia. rewrite Z.shiftr_div_pow2 by lia.
  rewrite Z.shiftl_mul_pow2 by lia. unfold u64.
  unfold is_u64 in Hv. cbn [Z.add Pos.add Pos.succ Z.of_nat Pos.of_succ_nat
                              Z.mul Pos.mul].
  change (2 ^ 64) with 18446744073709551616 in *.
  change (2 ^ 32) with 4294967296.
  Z.div_mod_to_equations. lia.
Qed.

Lemma nctoh64_round_trip_witness :
  is_u64 (2 ^ 63 + 258) /\
  nctoh64 LittleEndian (rev (le_bytes 8 (2 ^ 63 + 258)) ++ [7])
    = Some (2 ^ 63 + 258).
Proof.
  assert (H : is_u64 (2 ^ 63 + 258)) by (unfold is_u64; lia).
  split; [exact H|].
  exact (nctoh64_round_trip LittleEndian (2 ^ 63 + 258) [7] H).
Defined.

End NetFacts.

(** ** Suggested UDP ports *)

Section PortFacts.

Import Ports.

Lemma u16_id z : is_u16 z -> u16 z = z.
Proof. unfold is_u16, u16. intros H. apply Z.mod_small. exact H. Qed.

Lemma index_after_succ config n :
  forall i,
    index_after config (S n) i
      = snd (nextFreeUDPPort config (index_after config n i)).
Proof.
  induction n as [|k IH]; intros i.
  - reflexivity.
  - change (index_after config (S (S k)) i)
      with (index_after config (S k) (snd (nextFreeUDPPort config i))).
    rewrite IH. reflexivity.
Qed.

Lemma suggestion_index config n :
  suggestion config n = index_after config (S n) 0.
Proof. unfold suggestion. rewrite index_after_succ. reflexivity. Qed.

Lemma mod_succ x m :
  0 < m ->
  (x + 1) mod m = if x mod m =? m - 1 then 0 else x mod m + 1.
Proof.
  intros Hm. pose proof (Z.div_mod x m ltac:(lia)) as Hx.
  pose proof (Z.mod_pos_bound x m Hm) as Hb.
  destruct (Z.eqb_spec (x mod m) (m - 1)) as [E|E]; symmetry.
  - apply (Z.mod_unique (x + 1) m (x / m + 1) 0); lia.
  - apply (Z.mod_unique (x + 1) m (x / m) (x mod m + 1)); lia.
Qed.

Lemma port_of_call_succ config n :
  1 <= udp_port_base config -> 4 <= udp_port_range config ->
  udp_port_base config + udp_port_range config <= 2 ^ 16 ->
  0 <= n ->
  port_of_call config (n + 1)
    = if port_of_call config n
         =? udp_port_base config + udp_port_range config - 1
      then udp_port_base config + 3
      else port_of_call config n + 1.
Proof.
  intros Hb Hr Ht Hn. unfold port_of_call.
  destruct config as [base range]. cbn [udp_port_base udp_port_range] in *.
  destruct (Z.ltb_spec n range) as [L|L];
    destruct (Z.ltb_spec (n + 1) range) as [L1|L1]; try lia.
  - destruct (Z.eqb_spec (base + n) (base + range - 1)); lia.
  - assert (n = range - 1) by lia. subst n.
    destruct (Z.eqb_spec (base + (range - 1)) (base + range - 1)); [|lia].
    replace (range - 1 + 1 - range) with 0 by lia.
    rewrite Z.mod_0_l by lia. lia.
  - assert (Hm : 0 <= (n - range) mod (range - 3) < range - 3)
      by (apply Z.mod_pos_bound; lia).
    replace (n + 1 - range) with ((n - range) + 1) by lia.
    rewrite mod_succ by lia.
    destruct (Z.eqb_spec (base + 3 + (n - range) mod (range - 3))
                (base + range - 1)) as [E|E];
      destruct (Z.eqb_spec ((n - range) mod (range - 3)) (range - 3 - 1));
      lia.
Qed.

Lemma port_of_call_range config n :
  1 <= udp_port_base config -> 4 <= udp_port_range config ->
  0 <= n ->
  udp_port_base config <= port_of_call config n
    <= udp_port_base config + udp_port_range config - 1.
Proof.
  intros Hb Hr Hn. unfold port_of_call.
  destruct (Z.ltb_spec n (udp_port_range config)).
  - lia.
  - assert (0 <= (n - udp_port_range config) mod (udp_port_range config - 3)
              < udp_port_range config - 3)
      by (apply Z.mod_pos_bound; lia).
    lia.
Qed.

Lemma index_after_port config :
  1 <= udp_port_base config -> 4 <= udp_port_range config ->
  udp_port_base config + udp_port_range config <= 2 ^ 16 ->
  forall n, index_after config (S n) 0 = port_of_call config (Z.of_nat n).
Proof.
  intros Hb Hr Ht. induction n as [|k IH].
  - cbn [index_after nextFreeUDPPort snd]. rewrite Z.eqb_refl.
    unfold port_of_call. change (Z.of_nat 0) with 0.
    destruct (Z.ltb_spec 0 (udp_port_range config)); [|lia].
    rewrite u16_id by (unfold is_u16; lia). lia.
  - rewrite index_after_succ, IH.
    replace (Z.of_nat (S k)) with (Z.of_nat k + 1) by lia.
    rewrite port_of_call_succ by lia.
    pose proof (port_of_call_range config (Z.of_nat k) Hb Hr) as Hp.
    unfold nextFreeUDPPort. cbn [snd].
    destruct (Z.eqb_spec (port_of_call config (Z.of_nat k)) 0); [lia|].
    destruct (Z.eqb_spec (port_of_call config (Z.of_nat k))
                (udp_port_base config + udp_port_range config - 1)).
    + apply u16_id. unfold is_u16. lia.
    + apply u16_id. unfold is_u16. lia.
Qed.

(** X10.  With a base of at least 1 and a range of at least 4 that ends
    within the 16-bit ports, the calls after a reset suggest [base],
    [base + 1], ... up to the last port of the range, and from then on go
    round the ports [base + 3] to [base + range - 1]: every suggestion lies
    in the range, and the first three ports are suggested once only. *)
Theorem suggestions_cycle_above_first_three config n :
  1 <= udp_port_base config -> 4 <= udp_port_range config ->
  udp_port_base config + udp_port_range config <= 2 ^ 16 ->
  suggestion config n
    = (if Z.of_nat n <? udp_port_range config
       then udp_port_base config + Z.of_nat n
       else udp_port_base config + 3
            + (Z.of_nat n - udp_port_range config)
                mod (udp_port_range config - 3)) /\
  udp_port_base config <= suggestion config n
    <= udp_port_base config + udp_port_range config - 1 /\
  (udp_port_range config <= Z.of_nat n ->
   udp_port_base config + 3 <= suggestion config n).
Proof.
  intros Hb Hr Ht. rewrite suggestion_index, index_after_port by assumption.
  split; [reflexivity|]. split.
  - apply port_of_call_range; lia.
  - intros Hn. unfold port_of_call.
    destruct (Z.ltb_spec (Z.of_nat n) (udp_port_range config)); [lia|].
    assert (0 <= (Z.of_nat n - udp_port_range config)
                   mod (udp_port_range config - 3))
      by (apply Z.mod_pos_bound; lia).
    lia.
Qed.

Lemma suggestions_cycle_above_first_three_witness :
  1 <= udp_port_base (mk_config 6001 10) /\
  4 <= udp_port_range (mk_config 6001 10) /\
  udp_port_base (mk_config 6001 10) + udp_port_range (mk_config 6001 10)
    <= 2 ^ 16 /\
  suggestion (mk_config 6001 10) 10
    = (if Z.of_nat 10 <? udp_port_range (mk_config 6001 10)
       then udp_port_base (mk_config 6001 10) + Z.of_nat 10
       else udp_port_base (mk_config 6001 10) + 3
            + (Z.of_nat 10 - udp_port_range (mk_config 6001 10))
                mod (udp_port_range (mk_config 6001 10) - 3)) /\
  udp_port_base (mk_config 6001 10) <= suggestion (mk_config 6001 10) 10
    <= udp_port_base (mk_config 6001 10)
       + udp_port_range (mk_config 6001 10) - 1 /\
  (udp_port_range (mk_config 6001 10) <= Z.of_nat 10 ->
   udp_port_base (mk_config 6001 10) + 3 <= suggestion (mk_config 6001 10) 10).
Proof.
  assert (H1 : 1 <= udp_port_base (mk_config 6001 10)) by (cbn; lia).
  assert (H2 : 4 <= udp_port_range (mk_config 6001 10)) by (cbn; lia).
  assert (H3 : udp_port_base (mk_config 6001 10)
               + udp_port_range (mk_config 6001 10) <= 2 ^ 16) by (cbn; lia).
  split; [exact H1|]. split; [exact H2|]. split; [exact H3|].
  exact (suggestions_cycle_above_first_three (mk_config 6001 10) 10 H1 H2 H3).
Defined.

Lemma index_after_climbs config :
  forall j i,
    1 <= i -> i + Z.of_nat j <= 2 ^ 16 - 1 ->
    udp_port_base config + udp_port_range config - 1 < i ->
    index_after config j i = i + Z.of_nat j.
Proof.
  induction j as [|k IH]; intros i H1 H2 H3.
  - cbn [index_after]. lia.
  - cbn [index_after nextFreeUDPPort snd].
    destruct (Z.eqb_spec i 0); [lia|].
    destruct (Z.eqb_spec i
                (udp_port_base config + udp_port_range config - 1)); [lia|].
    rewrite u16_id by (unfold is_u16; lia).
    rewrite IH by lia. lia.
Qed.

Lemma index_after_add config m :
  forall n i,
    index_after config (n + m) i
      = index_after config m (index_after config n i).
Proof.
  induction n as [|k IH]; intros i.
  - reflexivity.
  - cbn [Nat.add index_after]. apply IH.
Qed.

Lemma next_from_zero config :
  is_u16 (udp_port_base config) ->
  snd (nextFreeUDPPort config 0) = udp_port_base config.
Proof.
  intros H. unfold nextFreeUDPPort. cbn [snd]. rewrite Z.eqb_refl.
  apply u16_id. exact H.
Qed.

Lemma next_from_top config i :
  i <> 0 -> i = udp_port_base config + udp_port_range config - 1 ->
  is_u16 (udp_port_base config + 3) ->
  snd (nextFreeUDPPort config i) = udp_port_base config + 3.
Proof.
  intros H0 Ht H. unfold nextFreeUDPPort. cbn [snd].
  destruct (Z.eqb_spec i 0); [contradiction|].
  destruct (Z.eqb_spec i (udp_port_base config + udp_port_range config - 1));
    [|contradiction].
  apply u16_id. exact H.
Qed.

Lemma next_from_below config i :
  i <> 0 -> i <> udp_port_base config + udp_port_range config - 1 ->
  is_u16 (i + 1) ->
  snd (nextFreeUDPPort config i) = i + 1.
Proof.
  intros H0 Ht H. unfold nextFreeUDPPort. cbn [snd].
  destruct (Z.eqb_spec i 0); [contradiction|].
  destruct (Z.eqb_spec i (udp_port_base config + udp_port_range config - 1));
    [contradiction|].
  apply u16_id. exact H.
Qed.

Lemma index_after_small config :
  1 <= udp_port_base config -> udp_port_base config + 3 <= 2 ^ 16 - 1 ->
  1 <= udp_port_range config <= 3 ->
  index_after config (S (Z.to_nat (udp_port_range config))) 0
    = udp_port_base config + 3.
Proof.
  intros Hb Ht Hr. destruct config as [base range].
  cbn [udp_port_base udp_port_range] in *.
  assert (E : range = 1 \/ range = 2 \/ range = 3) by lia.
  destruct E as [->|[->| ->]];
    [change (Z.to_nat 1) with 1%nat | change (Z.to_nat 2) with 2%nat
     | change (Z.to_nat 3) with 3%nat];
    rewrite !index_after_succ; cbn [index_after];
    rewrite next_from_zero by (unfold is_u16; cbn; lia);
    cbn [udp_port_base].
  - apply next_from_top; unfold is_u16; cbn; lia.
  - rewrite (next_from_below _ base) by (unfold is_u16; cbn; lia).
    apply next_from_top; unfold is_u16; cbn; lia.
  - rewrite (next_from_below _ base) by (unfold is_u16; cbn; lia).
    rewrite (next_from_below _ (base + 1)) by (unfold is_u16; cbn; lia).
    apply next_from_top; unfold is_u16; cbn; lia.
Qed.

(** X11.  A range of one, two or three ports is left for good: once its
    ports have been suggested the next suggestion is [base + 3], outside
    the range, and the suggestions climb from there one by one towards port
    65535, never returning to the range. *)
Theorem small_range_is_left config j :
  1 <= udp_port_base config ->
  1 <= udp_port_range config <= 3 ->
  udp_port_base config + 3 + Z.of_nat j <= 2 ^ 16 - 1 ->
  suggestion config (Z.to_nat (udp_port_range config) + j)
    = udp_port_base config + 3 + Z.of_nat j /\
  udp_port_base config + udp_port_range config - 1
    < suggestion config (Z.to_nat (udp_port_range config) + j).
Proof.
  intros Hb Hr Ht. rewrite suggestion_index.
  change (S (Z.to_nat (udp_port_range config) + j))
    with (S (Z.to_nat (udp_port_range config)) + j)%nat.
  rewrite index_after_add, index_after_small by lia.
  rewrite index_after_climbs by lia. lia.
Qed.

Lemma small_range_is_left_witness :
  1 <= udp_port_base (mk_config 6001 3) /\
  1 <= udp_port_range (mk_config 6001 3) <= 3 /\
  udp_port_base (mk_config 6001 3) + 3 + Z.of_nat 5 <= 2 ^ 16 - 1 /\
  suggestion (mk_config 6001 3)
      (Z.to_nat (udp_port_range (mk_config 6001 3)) + 5)
    = udp_port_base (mk_config 6001 3) + 3 + Z.of_nat 5 /\
  udp_port_base (mk_config 6001 3) + udp_port_range (mk_config 6001 3) - 1
    < suggestion (mk_config 6001 3)
        (Z.to_nat (udp_port_range (mk_config 6001 3)) + 5).
Proof.
  assert (H1 : 1 <= udp_port_base (mk_config 6001 3)) by (cbn; lia).
  assert (H2 : 1 <= udp_port_range (mk_config 6001 3) <= 3) by (cbn; lia).
  assert (H3 : udp_port_base (mk_config 6001 3) + 3 + Z.of_nat 5
               <= 2 ^ 16 - 1) by (cbn; lia).
  split; [exact H1|]. split; [exact H2|]. split; [exact H3|].
  exact (small_range_is_left (mk_config 6001 3) 5 H1 H2 H3).
Defined.

End PortFacts.

(** ** Names of the formats *)

Section NameFacts.

Import Zero Names.

(** X12.  Every value a [sps_format_t] can hold has a name: the lookup
    never reads past the array.  The members of the enumeration have
    different names, and every value above [SPS_FORMAT_AUTO] is named
    ["invalid"]. *)
Theorem format_names :
  (forall n : nat, exists name,
      sps_format_description_string (Z.of_nat n) = Some name /\
      ((14 < n)%nat -> name = "invalid"%string)) /\
  (forall f g,
      sps_format_description_string (enum_value f)
        = sps_format_description_string (enum_value g) -> f = g).
Proof.
  split.
  - intros n. unfold sps_format_description_string.
    destruct (Z.leb_spec (Z.of_nat n) (enum_value SPS_FORMAT_AUTO)) as [L|L].
    + rewrite Nat2Z.id. cbn [enum_value] in L.
      assert (Hn : (n < 15)%nat) by lia.
      do 15 (destruct n as [|n];
             [eexists; split; [reflexivity|intros; exfalso; lia]|]).
      exfalso; lia.
    + cbn [enum_value] in L. eexists; split; [reflexivity|]. reflexivity.
  - intros f g. destruct f, g; cbn; intros H;
      first [reflexivity | discriminate H].
Qed.

End NameFacts.

(** ** Strings *)

Section UpdateFacts.

Import CStr.

Lemma strlen_no_nul content :
  Forall (fun c => c <> 0) content -> strlen content = List.length content.
Proof.
  induction 1 as [|c rest Hc _ IH]; cbn [strlen List.length].
  - reflexivity.
  - destruct (Z.eqb_spec c 0); [contradiction|]. rewrite IH. reflexivity.
Qed.

Lemma strncmp_equal len :
  forall old new,
    Forall (fun c => c <> 0) old -> List.length old = len ->
    (len <= List.length new)%nat ->
    (strncmp old new len = 0 <-> old = firstn len new).
Proof.
  induction len as [|k IH]; intros old new Ho Hl Hn.
  - destruct old; [|discriminate Hl]. cbn. tauto.
  - destruct old as [|c1 r1]; [discriminate Hl|].
    destruct new as [|c2 r2]; [cbn in Hn; lia|].
    cbn [strncmp hd tl firstn]. inversion Ho as [|? ? Hc Hr]; subst.
    cbn [List.length] in Hl, Hn.
    destruct (Z.eqb_spec c1 c2) as [->|Hd].
    + destruct (Z.eqb_spec c2 0); [contradiction|].
      rewrite (IH r1 r2 Hr) by lia.
      split; [intros ->; reflexivity|intros E; injection E; trivial].
    + split; [lia|intros E; injection E; intros; contradiction].
Qed.

Lemma strncmp_stops_at_nul len :
  forall old new,
    In 0 (firstn len new) -> strncmp old new len = 0 ->
    (strlen old < len)%nat.
Proof.
  induction len as [|k IH]; intros old new Hin Hc.
  - destruct Hin.
  - destruct new as [|c2 r2]; [destruct Hin|].
    cbn [strncmp hd tl firstn] in Hc, Hin.
    destruct old as [|c1 r1]; [cbn; lia|].
    cbn [hd tl strlen] in *.
    destruct (Z.eqb_spec c1 c2) as [->|Hd]; [|lia].
    destruct (Z.eqb_spec c2 0) as [E|E]; [lia|].
    destruct Hin as [Hin|Hin]; [lia|].
    specialize (IH r1 r2 Hin Hc). lia.
Qed.

(** X13.  After a call [*str] holds the first [len] bytes of [s], or is
    null when [s] is null or [len] is zero, so that no string of length
    zero is stored; and the flag, which is 0 or 1, is 0 exactly when that
    was so before the call.  Neither string holds a NUL here. *)
Theorem flag_tells_change str s len :
  Forall (fun c => c <> 0) (bytes_of str) ->
  Forall (fun c => c <> 0) (firstn len (bytes_of s)) ->
  s = None \/ (len <= List.length (bytes_of s))%nat ->
  let incoming :=
    match s, len with
    | Some new, S _ => Some (firstn len new)
    | _, _ => None
    end in
  fst (string_update_with_size str s len) = incoming /\
  (snd (string_update_with_size str s len) = 0 <-> incoming = str) /\
  (snd (string_update_with_size str s len) = 0 \/
   snd (string_update_with_size str s len) = 1).
Proof.
  intros Ho Hs Hl incoming. subst incoming.
  unfold string_update_with_size, copy_of.
  destruct str as [old|]; destruct s as [new|]; destruct len as [|k];
    cbn [fst snd bytes_of] in *;
    try (split; [reflexivity|]; split; [|auto];
         split; [discriminate|congruence]);
    try (split; [reflexivity|]; split; [|auto]; split; reflexivity).
  destruct Hl as [Hl|Hl]; [discriminate Hl|].
  assert (Hlen : List.length (firstn (S k) new) = S k)
    by (apply firstn_length_le; exact Hl).
  rewrite (strlen_no_nul old Ho).
  destruct (Nat.eqb_spec (S k) (List.length old)) as [E|E]; cbn [negb orb].
  - destruct (Z.eqb_spec (strncmp old new (S k)) 0) as [C|C]; cbn [negb fst snd].
    + apply strncmp_equal in C; [|assumption|lia|assumption].
      split; [congruence|]. split; [|auto]. split; congruence.
    + split; [reflexivity|]. split; [|auto].
      split; [discriminate|]. intros H. exfalso. apply C.
      apply strncmp_equal; [assumption|lia|assumption|congruence].
  - cbn [fst snd]. split; [reflexivity|]. split; [|auto].
    split; [discriminate|]. intros H. exfalso. apply E.
    injection H as <-. symmetry. exact Hlen.
Qed.

Lemma flag_tells_change_witness :
  Forall (fun c => c <> 0) (bytes_of (Some [104; 105])) /\
  Forall (fun c => c <> 0) (firstn 2 (bytes_of (Some [104; 105; 33]))) /\
  (Some [104; 105; 33] = None \/
   (2 <= List.length (bytes_of (Some [104; 105; 33]%Z)))%nat) /\
  fst (string_update_with_size (Some [104; 105]) (Some [104; 105; 33]) 2)
    = Some (firstn 2 [104; 105; 33]) /\
  (snd (string_update_with_size (Some [104; 105]) (Some [104; 105; 33]) 2) = 0
   <-> Some (firstn 2 [104; 105; 33]) = Some [104; 105]) /\
  (snd (string_update_with_size (Some [104; 105]) (Some [104; 105; 33]) 2) = 0
   \/ snd (string_update_with_size (Some [104; 105]) (Some [104; 105; 33]) 2)
      = 1).
Proof.
  assert (H1 : Forall (fun c => c <> 0) (bytes_of (Some [104; 105])))
    by (repeat constructor; lia).
  assert (H2 : Forall (fun c => c <> 0)
                 (firstn 2 (bytes_of (Some [104; 105; 33]))))
    by (repeat constructor; lia).
  assert (H3 : Some [104; 105; 33] = None \/
               (2 <= List.length (bytes_of (Some [104; 105; 33]%Z)))%nat)
    by (right; cbn; lia).
  split; [exact H1|]. split; [exact H2|]. split; [exact H3|].
  exact (flag_tells_change (Some [104; 105]) (Some [104; 105; 33]) 2
           H1 H2 H3).
Defined.

(** X14.  An incoming string with a NUL among its [len] bytes is reported
    as a change on every call, whatever is stored, also when the call
    before stored the very same bytes. *)
Theorem nul_inside_always_flagged str new len :
  In 0 (firstn len new) ->
  string_update_with_size str (Some new) len = (Some (firstn len new), 1) /\
  string_update_with_size (Some (firstn len new)) (Some new) len
    = (Some (firstn len new), 1).
Proof.
  intros Hin.
  assert (H : forall p,
             string_update_with_size p (Some new) len
               = (Some (firstn len new), 1)).
  { intros p. unfold string_update_with_size, copy_of.
    destruct len as [|k]; [destruct Hin|].
    destruct p as [old|]; [|reflexivity].
    destruct (Nat.eqb_spec (S k) (strlen old)) as [E|E]; cbn [negb orb];
      [|reflexivity].
    destruct (Z.eqb_spec (strncmp old new (S k)) 0) as [C|C]; cbn [negb];
      [|reflexivity].
    pose proof (strncmp_stops_at_nul (S k) old new Hin C). lia. }
  split; apply H.
Qed.

Lemma nul_inside_always_flagged_witness :
  In 0 (firstn 3 [97; 0; 98; 99]) /\
  string_update_with_size (Some [97]) (Some [97; 0; 98; 99]) 3
    = (Some (firstn 3 [97; 0; 98; 99]), 1) /\
  string_update_with_size (Some (firstn 3 [97; 0; 98; 99]))
      (Some [97; 0; 98; 99]) 3
    = (Some (firstn 3 [97; 0; 98; 99]), 1).
Proof.
  assert (H : In 0 (firstn 3 [97; 0; 98; 99])) by (cbn; auto).
  split; [exact H|].
  exact (nul_inside_always_flagged (Some [97]) [97; 0; 98; 99] 3 H).
Defined.

End UpdateFacts.

(** ** Replacement in strings *)

Section ReplaceFacts.

Import CStr.

Lemma starts_with_sound needle :
  forall s,
    starts_with needle s = true ->
    (List.length needle <= List.length s)%nat /\
    firstn (List.length needle) s = needle.
Proof.
  induction needle as [|c needle' IH]; intros s H.
  - cbn. split; [lia|reflexivity].
  - destruct s as [|d s']; [discriminate H|].
    cbn [starts_with] in H. apply andb_true_iff in H. destruct H as [Hc Hr].
    apply Z.eqb_eq in Hc. subst d. destruct (IH s' Hr) as [Hl Hf].
    cbn [List.length firstn]. split; [lia|]. rewrite Hf. reflexivity.
Qed.

Lemma strstr_unfold haystack needle :
  strstr haystack needle
    = if starts_with needle haystack then Some O
      else match haystack with
           | [] => None
           | _ :: rest => option_map S (strstr rest needle)
           end.
Proof. destruct haystack; reflexivity. Qed.

Lemma strstr_sound needle :
  forall haystack offset,
    strstr haystack needle = Some offset ->
    (offset + List.length needle <= List.length haystack)%nat /\
    firstn (List.length needle) (skipn offset haystack) = needle.
Proof.
  induction haystack as [|c rest IH]; intros offset H;
    rewrite strstr_unfold in H;
    destruct (starts_with needle _) eqn:Hs.
  - injection H as <-. apply starts_with_sound in Hs. cbn [skipn Nat.add].
    exact Hs.
  - discriminate H.
  - injection H as <-. apply starts_with_sound in Hs. cbn [skipn Nat.add].
    exact Hs.
  - destruct (strstr rest needle) as [o|] eqn:Hr; [|discriminate H].
    cbn [option_map] in H. injection H as <-.
    destruct (IH o eq_refl) as [Hl Hf]. cbn [List.length skipn].
    split; [lia|exact Hf].
Qed.

Lemma strstr_empty haystack : strstr haystack [] = Some O.
Proof. rewrite strstr_unfold. reflexivity. Qed.

Lemma replace_loop_unfold rounds substr replacement newstr head :
  replace_loop (S rounds) substr replacement newstr head
    = match strstr (skipn head newstr) substr with
      | None => Some newstr
      | Some offset =>
          replace_loop rounds substr replacement
            (firstn (head + offset) newstr ++ replacement
             ++ firstn (List.length newstr - List.length substr
                        - (head + offset))
                  (skipn (head + offset + List.length substr) newstr))
            (head + offset + List.length replacement)
      end.
Proof. reflexivity. Qed.

(** What a round leaves of [oldstr] after the occurrence. *)
Lemma rest_after_occurrence (oldstr : list Z) tok n :
  (tok + n <= List.length oldstr)%nat ->
  firstn (List.length oldstr - n - tok) (skipn (tok + n) oldstr)
    = skipn (tok + n) oldstr.
Proof.
  intros H. apply firstn_all2. rewrite length_skipn. lia.
Qed.

Lemma replace_loop_ends substr replacement :
  substr <> [] ->
  forall n newstr head,
    (head <= List.length newstr)%nat ->
    (List.length newstr - head < n)%nat ->
    exists result k,
      (forall rounds, (n <= rounds)%nat ->
         replace_loop rounds substr replacement newstr head = Some result) /\
      (List.length result + k * List.length substr
       = List.length newstr + k * List.length replacement)%nat.
Proof.
  intros Hsub.
  assert (Hpos : (1 <= List.length substr)%nat)
    by (destruct substr; [contradiction|cbn; lia]).
  induction n as [|n' IH]; intros newstr head Hh Hn; [lia|].
  destruct (strstr (skipn head newstr) substr) as [offset|] eqn:Hs.
  - destruct (strstr_sound _ _ _ Hs) as [Hl _].
    rewrite length_skipn in Hl.
    set (tok := (head + offset)%nat).
    set (newstr' :=
           firstn tok newstr ++ replacement
           ++ firstn (List.length newstr - List.length substr - tok)
                (skipn (tok + List.length substr) newstr)).
    assert (Hlen : (List.length newstr' + List.length substr
                    = List.length newstr + List.length replacement)%nat).
    { subst newstr'. rewrite rest_after_occurrence by (subst tok; lia).
      rewrite !length_app, firstn_length_le, length_skipn
        by (subst tok; lia).
      subst tok. lia. }
    destruct (IH newstr' (tok + List.length replacement)%nat)
      as (result & k & Hr & Hk); [lia|lia|].
    exists result, (S k). split.
    + intros rounds Hge. destruct rounds as [|r]; [lia|].
      rewrite replace_loop_unfold, Hs. apply Hr. lia.
    + cbn [Nat.mul]. lia.
  - exists newstr, O. split.
    + intros rounds Hge. destruct rounds as [|r]; [lia|].
      rewrite replace_loop_unfold, Hs. reflexivity.
    + lia.
Qed.

(** X15.  For a [substr] that is not empty the loop ends, after at most as
    many rounds as the string is long and one more to find no further
    occurrence, whatever the replacement holds, [substr] itself included;
    the result's length is the string's with [k] times the length of
    [substr] taken off and [k] times that of the replacement put on. *)
Theorem str_replace_ends string substr replacement :
  substr <> [] ->
  exists result k,
    (forall rounds, (List.length string < rounds)%nat ->
       str_replace rounds string (Some substr) (Some replacement)
         = Some result) /\
    (List.length result + k * List.length substr
     = List.length string + k * List.length replacement)%nat.
Proof.
  intros Hsub.
  destruct (replace_loop_ends substr replacement Hsub
              (S (List.length string)) string O)
    as (result & k & Hr & Hk); [lia|lia|].
  exists result, k. split; [|exact Hk].
  intros rounds Hge. cbn [str_replace]. apply Hr. lia.
Qed.

Lemma str_replace_ends_witness :
  [97] <> [] /\
  exists result k,
    (forall rounds, (List.length [98; 97; 97] < rounds)%nat ->
       str_replace rounds [98; 97; 97] (Some [97]) (Some [97; 97])
         = Some result) /\
    (List.length result + k * List.length [97]
     = List.length [98; 97; 97] + k * List.length [97; 97])%nat.
Proof.
  assert (H : [97] <> []) by discriminate.
  split; [exact H|].
  exact (str_replace_ends [98; 97; 97] [97] [97; 97] H).
Defined.

Lemma replace_loop_same substr :
  substr <> [] ->
  forall n newstr head,
    (head <= List.length newstr)%nat ->
    (List.length newstr - head < n)%nat ->
    forall rounds, (n <= rounds)%nat ->
      replace_loop rounds substr substr newstr head = Some newstr.
Proof.
  intros Hsub.
  assert (Hpos : (1 <= List.length substr)%nat)
    by (destruct substr; [contradiction|cbn; lia]).
  induction n as [|n' IH]; intros newstr head Hh Hn rounds Hge; [lia|].
  destruct rounds as [|r]; [lia|]. rewrite replace_loop_unfold.
  destruct (strstr (skipn head newstr) substr) as [offset|] eqn:Hs;
    [|reflexivity].
  destruct (strstr_sound _ _ _ Hs) as [Hl Hf].
  rewrite length_skipn in Hl. rewrite skipn_skipn in Hf.
  replace (offset + head)%nat with (head + offset)%nat in Hf by lia.
  rewrite rest_after_occurrence by lia.
  assert (E : firstn (head + offset) newstr ++ substr
              ++ skipn (head + offset + List.length substr) newstr
              = newstr).
  { pose proof (firstn_skipn (List.length substr)
                  (skipn (head + offset) newstr)) as B.
    rewrite Hf, skipn_skipn in B.
    replace (head + offset + List.length substr)%nat
      with (List.length substr + (head + offset))%nat by lia.
    rewrite B. apply firstn_skipn. }
  rewrite E. apply IH; lia.
Qed.

(** X16.  Replacing a [substr] that is not empty by itself returns the
    string as it was. *)
Theorem str_replace_by_itself string substr rounds :
  substr <> [] -> (List.length string < rounds)%nat ->
  str_replace rounds string (Some substr) (Some substr) = Some string.
Proof.
  intros Hsub Hr. cbn [str_replace].
  apply (replace_loop_same substr Hsub (S (List.length string))); lia.
Qed.

Lemma str_replace_by_itself_witness :
  [97; 98] <> [] /\ (List.length [97; 98; 97; 98; 99] < 6)%nat /\
  str_replace 6 [97; 98; 97; 98; 99] (Some [97; 98]) (Some [97; 98])
    = Some [97; 98; 97; 98; 99].
Proof.
  assert (H1 : [97; 98] <> []) by discriminate.
  assert (H2 : (List.length [97; 98; 97; 98; 99] < 6)%nat) by (cbn; lia).
  split; [exact H1|]. split; [exact H2|].
  exact (str_replace_by_itself [97; 98; 97; 98; 99] [97; 98] 6 H1 H2).
Defined.

(** X17.  With an empty [substr] the loop never ends: [strstr] finds it at
    [head] in every round, so that no number of rounds leads to a
    result. *)
Theorem str_replace_empty_substr_never_ends rounds string replacement :
  str_replace rounds string (Some []) (Some replacement) = None.
Proof.
  cbn [str_replace]. generalize 0%nat as head. revert string.
  induction rounds as [|k IH]; intros newstr head.
  - reflexivity.
  - rewrite replace_loop_unfold, strstr_empty. apply IH.
Qed.

Lemma replace_loop_prefix substr replacement :
  forall rounds done rest,
    replace_loop rounds substr replacement (done ++ rest) (List.length done)
      = option_map (app done) (replace_loop rounds substr replacement rest O).
Proof.
  induction rounds as [|k IH]; intros done rest; [reflexivity|].
  rewrite !replace_loop_unfold.
  rewrite skipn_app, skipn_all, Nat.sub_diag. cbn [app skipn Nat.add].
  destruct (strstr rest substr) as [offset|] eqn:Hs; [|reflexivity].
  destruct (strstr_sound _ _ _ Hs) as [Hl _].
  rewrite !rest_after_occurrence by (rewrite ?length_app; lia).
  assert (E1 : firstn (List.length done + offset) (done ++ rest)
               = done ++ firstn offset rest).
  { rewrite firstn_app.
    replace (List.length done + offset - List.length done)%nat
      with offset by lia.
    rewrite firstn_all2 by lia. reflexivity. }
  assert (E2 : skipn (List.length done + offset + List.length substr)
                 (done ++ rest)
               = skipn (offset + List.length substr) rest).
  { rewrite skipn_app, skipn_all2 by lia.
    replace (List.length done + offset + List.length substr
             - List.length done)%nat
      with (offset + List.length substr)%nat by lia.
    reflexivity. }
  rewrite E1, E2.
  set (tail := skipn (offset + List.length substr) rest).
  replace ((done ++ firstn offset rest) ++ replacement ++ tail)
    with ((done ++ firstn offset rest ++ replacement) ++ tail)
    by (rewrite <- !app_assoc; reflexivity).
  replace (List.length done + offset + List.length replacement)%nat
    with (List.length (done ++ firstn offset rest ++ replacement))
    by (rewrite !length_app, firstn_length_le by lia; lia).
  rewrite IH.
  replace (firstn offset rest ++ replacement ++ tail)
    with ((firstn offset rest ++ replacement) ++ tail)
    by (rewrite <- !app_assoc; reflexivity).
  replace (offset + List.length replacement)%nat
    with (List.length (firstn offset rest ++ replacement))
    by (rewrite !length_app, firstn_length_le by lia; lia).
  rewrite IH.
  destruct (replace_loop k substr replacement tail 0) as [r|];
    cbn [option_map]; [|reflexivity].
  rewrite <- !app_assoc. reflexivity.
Qed.

(** X18.  The text put in is not searched again: where the first
    occurrence of [substr] in the string ends the part [before ++ substr],
    the result is [before], the replacement, and the result for the part
    [after] alone, found in one round less. *)
Theorem str_replace_first_occurrence
    rounds before after substr replacement :
  strstr (before ++ substr ++ after) substr = Some (List.length before) ->
  str_replace (S rounds) (before ++ substr ++ after) (Some substr)
      (Some replacement)
    = option_map (fun result => before ++ replacement ++ result)
        (str_replace rounds after (Some substr) (Some replacement)).
Proof.
  intros Hs. cbn [str_replace]. rewrite replace_loop_unfold.
  cbn [skipn Nat.add]. rewrite Hs.
  rewrite rest_after_occurrence by (rewrite !length_app; lia).
  rewrite firstn_app, Nat.sub_diag, firstn_all. cbn [firstn].
  rewrite app_nil_r.
  replace (skipn (List.length before + List.length substr)
             (before ++ substr ++ after)) with after.
  - replace (before ++ replacement ++ after)
      with ((before ++ replacement) ++ after)
      by (rewrite <- app_assoc; reflexivity).
    replace (List.length before + List.length replacement)%nat
      with (List.length (before ++ replacement))
      by (rewrite length_app; reflexivity).
    rewrite replace_loop_prefix.
    destruct (replace_loop rounds substr replacement after 0) as [r|];
      cbn [option_map]; [|reflexivity].
    rewrite <- app_assoc. reflexivity.
  - rewrite app_assoc.
    rewrite skipn_app, skipn_all2 by (rewrite length_app; lia).
    rewrite length_app.
    replace (List.length before + List.length substr
             - (List.length before + List.length substr))%nat
      with O by lia.
    reflexivity.
Qed.

Lemma str_replace_first_occurrence_witness :
  strstr ([120] ++ [97; 98] ++ [97; 98; 121]) [97; 98]
    = Some (List.length [120]) /\
  str_replace (S 5) ([120] ++ [97; 98] ++ [97; 98; 121]) (Some [97; 98])
      (Some [98; 97; 98])
    = option_map (fun result => [120] ++ [98; 97; 98] ++ result)
        (str_replace 5 [97; 98; 121] (Some [97; 98]) (Some [98; 97; 98])).
Proof.
  assert (H : strstr ([120] ++ [97; 98] ++ [97; 98; 121]) [97; 98]
              = Some (List.length [120])) by reflexivity.
  split; [exact H|].
  exact (str_replace_first_occurrence 5 [120] [97; 98; 121] [97; 98]
           [98; 97; 98] H).
Defined.

End ReplaceFacts.

(** ** Bytes as hexadecimal text *)

Section HexFacts.

Import CStr.

Lemma store_at_end (done tail data : list Z) :
  (List.length data <= List.length tail)%nat ->
  store_at (done ++ tail) (Z.of_nat (List.length done)) data
    = Some (done ++ data ++ skipn (List.length data) tail).
Proof.
  intros H. unfold store_at.
  destruct (Z.leb_spec 0 (Z.of_nat (List.length done))) as [_|]; [|lia].
  rewrite length_app.
  destruct (Z.leb_spec
              (Z.of_nat (List.length done) + Z.of_nat (List.length data))
              (Z.of_nat (List.length done + List.length tail))) as [_|];
    [|lia].
  cbn [andb]. rewrite Nat2Z.id.
  rewrite firstn_app, Nat.sub_diag, firstn_all. cbn [firstn].
  rewrite app_nil_r.
  rewrite skipn_app, skipn_all2 by lia.
  replace (List.length done + List.length data - List.length done)%nat
    with (List.length data) by lia.
  reflexivity.
Qed.

Lemma flat_map_hex_length packet :
  List.length (flat_map hex_and_space packet) = (3 * List.length packet)%nat.
Proof.
  induction packet as [|q rest IH]; [reflexivity|].
  cbn [flat_map]. rewrite length_app, IH. cbn [hex_and_space List.length].
  lia.
Qed.

Lemma hex_loop_stores :
  forall packet done tail,
    packet <> [] ->
    (3 * List.length packet + 1 <= List.length tail)%nat ->
    hex_loop packet (done ++ tail) (Z.of_nat (List.length done))
      = Some (done ++ flat_map hex_and_space packet
              ++ 0 :: skipn (3 * List.length packet + 1) tail,
              Z.of_nat (List.length done + 3 * List.length packet)).
Proof.
  induction packet as [|q rest IH]; intros done tail Hne Hl;
    [contradiction|].
  cbn [hex_loop List.length] in *.
  rewrite store_at_end by (cbn [hex_and_space app List.length]; lia).
  cbn [hex_and_space app List.length].
  destruct rest as [|q' rest'].
  - cbn [hex_loop flat_map app List.length].
    f_equal; f_equal; try reflexivity; lia.
  - set (h := hex_digit (q / 16)). set (l := hex_digit (q mod 16)).
    replace (done ++ h :: l :: 32 :: 0 :: skipn 4 tail)
      with ((done ++ [h; l; 32]) ++ 0 :: skipn 4 tail)
      by (rewrite <- app_assoc; reflexivity).
    replace (Z.of_nat (List.length done) + 3)
      with (Z.of_nat (List.length (done ++ [h; l; 32])))
      by (rewrite length_app; cbn [List.length]; lia).
    rewrite IH; [|discriminate|cbn [List.length] in *;
                               rewrite length_skipn; lia].
    f_equal. f_equal.
    + assert (Et : skipn (3 * List.length (q' :: rest') + 1)
                     (0 :: skipn 4 tail)
                   = skipn (3 * S (List.length (q' :: rest')) + 1) tail).
      { replace (3 * List.length (q' :: rest') + 1)%nat
          with (S (3 * List.length (q' :: rest')))%nat by lia.
        rewrite skipn_cons, skipn_skipn. f_equal. lia. }
      rewrite Et, <- !app_assoc. reflexivity.
    + rewrite length_app. cbn [List.length]. lia.
Qed.

Lemma hex_block malloc packet :
  (forall size, List.length (malloc size) = size) ->
  packet <> [] ->
  debug_malloc_hex_cstring malloc packet
    = Some (removelast (flat_map hex_and_space packet) ++ [0; 0]).
Proof.
  intros Hm Hne. unfold debug_malloc_hex_cstring.
  set (response := malloc (List.length packet * 3 + 1)%nat).
  assert (Hr : List.length response = (List.length packet * 3 + 1)%nat)
    by apply Hm.
  change response with ([] ++ response).
  change 0 with (Z.of_nat (List.length (@nil Z))) at 1.
  rewrite hex_loop_stores by (trivial; lia).
  rewrite skipn_all2 by lia. cbn [app List.length Nat.add].
  assert (Hp : exists text c, flat_map hex_and_space packet = text ++ [c]).
  { destruct (exists_last (l := flat_map hex_and_space packet)) as (t & c & E).
    - destruct packet; [contradiction|discriminate].
    - exists t, c. exact E. }
  destruct Hp as (text & c & E).
  pose proof (flat_map_hex_length packet) as Hlen.
  rewrite E in *. rewrite removelast_last.
  rewrite length_app in Hlen. cbn [List.length] in Hlen.
  replace (Z.of_nat (3 * List.length packet) - 1)
    with (Z.of_nat (List.length text)) by lia.
  rewrite <- app_assoc. cbn [app].
  rewrite store_at_end by (cbn [List.length]; lia).
  reflexivity.
Qed.

(** X19.  For a packet of at least one byte the block returned holds, for
    each byte, its two hexadecimal digits and a space, the last space
    replaced by a NUL, and after it the NUL the last [snprintf] stored: a
    string of [3 * nread - 1] characters in a block of [3 * nread + 1].
    For an empty packet the closing NUL is stored one byte before the
    block: there is no block to return. *)
Theorem hex_cstring_layout malloc packet :
  (forall size, List.length (malloc size) = size) ->
  debug_malloc_hex_cstring malloc packet
    = match packet with
      | [] => None
      | _ :: _ => Some (removelast (flat_map hex_and_space packet) ++ [0; 0])
      end.
Proof.
  intros Hm. destruct packet as [|q rest]; [reflexivity|].
  apply hex_block; [exact Hm|discriminate].
Qed.

Lemma hex_cstring_layout_witness :
  (forall size, List.length (repeat 170 size) = size) /\
  debug_malloc_hex_cstring (repeat 170) [10; 255]
    = Some (removelast (flat_map hex_and_space [10; 255]) ++ [0; 0]).
Proof.
  assert (H : forall size, List.length (repeat 170 size) = size)
    by (intros size; apply repeat_length).
  split; [exact H|].
  exact (hex_cstring_layout (repeat 170) [10; 255] H).
Defined.

End HexFacts.

(** ** Buffers in the debug log *)

Section DumpFacts.

Import CStr Dump.

Lemma byte_cases (P : Z -> bool) :
  forallb (fun n => P (Z.of_nat n)) (seq 0 256) = true ->
  forall byte, is_u8 byte -> P byte = true.
Proof.
  intros H byte Hb. rewrite forallb_forall in H.
  specialize (H (Z.to_nat byte)). rewrite Z2Nat.id in H by apply Hb.
  apply H. apply in_seq. unfold is_u8 in Hb.
  change (2 ^ 8) with 256 in Hb. lia.
Qed.

Lemma two_characters char_is_signed byte :
  is_u8 byte ->
  exists c1 c2,
    snprintf 3 (printf_02X (char_value char_is_signed byte)) = [c1; c2; 0] /\
    c1 <> 0 /\ c2 <> 0.
Proof.
  intros Hb.
  pose proof (byte_cases
    (fun b =>
       match snprintf 3 (printf_02X (char_value char_is_signed b)) with
       | [c1; c2; 0] => negb (c1 =? 0) && negb (c2 =? 0)
       | _ => false
       end)) as H.
  cbv beta in H. specialize (H ltac:(destruct char_is_signed; vm_compute;
                                     reflexivity) byte Hb).
  destruct (snprintf 3 (printf_02X (char_value char_is_signed byte)))
    as [|c1 [|c2 [|c3 [|c4 l]]]]; try discriminate H;
    destruct c3; try discriminate H.
  apply andb_true_iff in H. destruct H as [H1 H2].
  exists c1, c2. split; [reflexivity|].
  split; [destruct (Z.eqb_spec c1 0); [discriminate H1|assumption]
         |destruct (Z.eqb_spec c2 0); [discriminate H2|assumption]].
Qed.


Lemma strlen_up_to_nul done rest :
  ~ In 0 done -> strlen (done ++ 0 :: rest) = List.length done.
Proof.
  induction done as [|c done' IH]; intros H; cbn [app strlen List.length].
  - reflexivity.
  - destruct (Z.eqb_spec c 0) as [E|E].
    + exfalso. apply H. left. exact E.
    + rewrite IH; [reflexivity|]. intros Hin. apply H. right. exact Hin.
Qed.

Ltac lengths :=
  repeat (rewrite ?length_app, ?length_skipn; cbn [List.length]).

Lemma not_in_app (done extra : list Z) :
  ~ In 0 done -> ~ In 0 extra -> ~ In 0 (done ++ extra).
Proof. intros H1 H2 H. apply in_app_or in H. tauto. Qed.

Ltac dump_side :=
  first [ assumption
        | solve [lengths; Z.div_mod_to_equations; lia]
        | solve [apply not_in_app; [assumption|cbn [In]; lia]] ].

(** The loop keeps inside the block: what is written for the bytes before
    [obfc] is at most two characters a byte and four more for every fourth
    byte. *)
Lemma dump_loop_fits char_is_signed buf_len :
  forall buf obfc done tail,
    Forall is_u8 buf -> 0 <= obfc ->
    obfc + Z.of_nat (List.length buf) = buf_len ->
    ~ In 0 done ->
    2 * obfc <= Z.of_nat (List.length done) <= 2 * obfc + 4 * (obfc / 4) ->
    Z.of_nat (List.length done) + Z.of_nat (List.length tail)
      = 4 * buf_len + 1 ->
    exists done' tail',
      dump_loop char_is_signed buf obfc buf_len (done ++ tail)
        (Z.of_nat (List.length done))
        = Some (done' ++ tail', Z.of_nat (List.length done')) /\
      ~ In 0 done' /\
      2 * buf_len <= Z.of_nat (List.length done')
        <= 2 * buf_len + 4 * (buf_len / 4) /\
      Z.of_nat (List.length done') + Z.of_nat (List.length tail')
        = 4 * buf_len + 1.
Proof.
  induction buf as [|byte rest IH];
    intros obfc done tail Hb H0 Hn Hd Hbound Hlen.
  - cbn [List.length] in Hn. replace obfc with buf_len in * by lia.
    exists done, tail. cbn [dump_loop]. repeat split; tauto || lia.
  - pose proof (Forall_inv Hb) as Hbyte.
    pose proof (Forall_inv_tail Hb) as Hrest.
    cbn [List.length] in Hn.
    destruct (two_characters char_is_signed byte Hbyte)
      as (c1 & c2 & Hs & Hc1 & Hc2).
    cbn [dump_loop]. rewrite Hs.
    assert (Hq : 4 * (obfc / 4) <= obfc)
      by (apply Z.mul_div_le; lia).
    rewrite store_at_end by (cbn [List.length]; lia).
    cbn [List.length app].
    assert (E2 : done ++ c1 :: c2 :: 0 :: skipn 3 tail
                 = (done ++ [c1; c2]) ++ 0 :: skipn 3 tail)
      by (rewrite <- app_assoc; reflexivity).
    assert (L2 : Z.of_nat (List.length done) + 2
                 = Z.of_nat (List.length (done ++ [c1; c2])))
      by (rewrite length_app; cbn [List.length]; lia).
    assert (N2 : ~ In 0 (done ++ [c1; c2])).
    { apply not_in_app; [assumption|]. cbn [In]. intuition congruence. }
    assert (T2 : Z.of_nat (List.length (0 :: skipn 3 tail))
                 = Z.of_nat (List.length tail) - 2)
      by (cbn [List.length]; rewrite length_skipn; lia).
    rewrite E2, L2.
    unfold separator.
    destruct (Z.eqb_spec obfc (buf_len - 1)) as [Elast|Elast]; cbn [negb].
    + destruct (IH (obfc + 1) (done ++ [c1; c2]) (0 :: skipn 3 tail))
        as (done' & tail' & Hl & Hrest'); [dump_side..|].
      exists done', tail'. split; [exact Hl|exact Hrest'].
    + destruct (Z.eqb_spec (obfc mod 32) 31) as [E32|E32];
        [|destruct (Z.eqb_spec (obfc mod 16) 15) as [E16|E16];
          [|destruct (Z.eqb_spec (obfc mod 4) 3) as [E4|E4]]].
      * cbn [snprintf Nat.sub firstn app].
        rewrite store_at_end by (lengths; lia).
        cbn [List.length app].
        replace ((done ++ [c1; c2]) ++ 32 :: 124 :: 124 :: 32 :: 0
                 :: skipn 5 (0 :: skipn 3 tail))
          with (((done ++ [c1; c2]) ++ [32; 124; 124; 32]) ++ 0
                :: skipn 5 (0 :: skipn 3 tail))
          by (rewrite <- !app_assoc; reflexivity).
        replace (Z.of_nat (List.length (done ++ [c1; c2])) + 4)
          with (Z.of_nat (List.length
                            ((done ++ [c1; c2]) ++ [32; 124; 124; 32])))
          by (lengths; lia).
        destruct (IH (obfc + 1) ((done ++ [c1; c2]) ++ [32; 124; 124; 32])
                    (0 :: skipn 5 (0 :: skipn 3 tail)))
          as (done' & tail' & Hl & Hrest'); [dump_side..|].
        exists done', tail'. split; [exact Hl|exact Hrest'].
      * cbn [snprintf Nat.sub firstn app].
        rewrite store_at_end by (lengths; lia).
        cbn [List.length app].
        replace ((done ++ [c1; c2]) ++ 32 :: 124 :: 32 :: 0
                 :: skipn 4 (0 :: skipn 3 tail))
          with (((done ++ [c1; c2]) ++ [32; 124; 32]) ++ 0
                :: skipn 4 (0 :: skipn 3 tail))
          by (rewrite <- !app_assoc; reflexivity).
        replace (Z.of_nat (List.length (done ++ [c1; c2])) + 3)
          with (Z.of_nat (List.length
                            ((done ++ [c1; c2]) ++ [32; 124; 32])))
          by (lengths; lia).
        destruct (IH (obfc + 1) ((done ++ [c1; c2]) ++ [32; 124; 32])
                    (0 :: skipn 4 (0 :: skipn 3 tail)))
          as (done' & tail' & Hl & Hrest'); [dump_side..|].
        exists done', tail'. split; [exact Hl|exact Hrest'].
      * cbn [snprintf Nat.sub firstn app].
        rewrite store_at_end by (lengths; lia).
        cbn [List.length app].
        replace ((done ++ [c1; c2]) ++ 32 :: 0
                 :: skipn 2 (0 :: skipn 3 tail))
          with (((done ++ [c1; c2]) ++ [32]) ++ 0
                :: skipn 2 (0 :: skipn 3 tail))
          by (rewrite <- !app_assoc; reflexivity).
        replace (Z.of_nat (List.length (done ++ [c1; c2])) + 1)
          with (Z.of_nat (List.length ((done ++ [c1; c2]) ++ [32])))
          by (lengths; lia).
        destruct (IH (obfc + 1) ((done ++ [c1; c2]) ++ [32])
                    (0 :: skipn 2 (0 :: skipn 3 tail)))
          as (done' & tail' & Hl & Hrest'); [dump_side..|].
        exists done', tail'. split; [exact Hl|exact Hrest'].
      * destruct (IH (obfc + 1) (done ++ [c1; c2]) (0 :: skipn 3 tail))
          as (done' & tail' & Hl & Hrest'); [dump_side..|].
        exists done', tail'. split; [exact Hl|exact Hrest'].
Qed.

(** X20.  When the level lets the buffer be logged, no store leaves the
    block of [buf_len * 4 + 1] bytes: a line is handed to [_debug], of two
    characters a byte at least and three at most, whatever the machine's
    [char] and whatever the block held. *)
Theorem print_buffer_keeps_in_block
    char_is_signed debuglev malloc level vbuf :
  (forall size, List.length (malloc size) = size) ->
  Forall is_u8 vbuf ->
  level <= debuglev ->
  exists text,
    _debug_print_buffer char_is_signed debuglev malloc level vbuf = Line text /\
    ~ In 0 text /\
    (2 * List.length vbuf <= List.length text <= 3 * List.length vbuf)%nat.
Proof.
  intros Hm Hb Hl. unfold _debug_print_buffer.
  destruct (Z.gtb_spec level debuglev) as [G|_]; [lia|].
  set (n := List.length vbuf).
  pose proof (Hm (n * 4 + 1)%nat) as Hblock.
  destruct (dump_loop_fits char_is_signed (Z.of_nat n) vbuf 0 []
              (malloc (n * 4 + 1)%nat))
    as (done' & tail' & Hloop & Hnul & Hbound & Hlen);
    [assumption|lia|subst n; lia|intros []|cbn; lia
    |cbn [List.length]; rewrite Hblock; lia|].
  cbn [app List.length] in Hloop. change (Z.of_nat 0) with 0 in Hloop.
  rewrite Hloop.
  assert (Hq : 4 * (Z.of_nat n / 4) <= Z.of_nat n)
    by (apply Z.mul_div_le; lia).
  rewrite store_at_end by (cbn [List.length]; lia).
  cbn [List.length app].
  rewrite strlen_up_to_nul by assumption.
  rewrite firstn_app, Nat.sub_diag, firstn_all. cbn [firstn].
  rewrite app_nil_r.
  exists done'. split; [reflexivity|]. split; [assumption|lia].
Qed.

Lemma print_buffer_keeps_in_block_witness :
  (forall size, List.length (repeat 170 size) = size) /\
  Forall is_u8 [1; 2; 3; 4; 200] /\
  0 <= 1 /\
  exists text,
    _debug_print_buffer true 1 (repeat 170) 0 [1; 2; 3; 4; 200] = Line text /\
    ~ In 0 text /\
    (2 * List.length [1; 2; 3; 4; 200] <= List.length text
     <= 3 * List.length [1; 2; 3; 4; 200])%nat.
Proof.
  assert (H1 : forall size, List.length (repeat 170 size) = size)
    by (intros size; apply repeat_length).
  assert (H2 : Forall is_u8 [1; 2; 3; 4; 200])
    by (repeat constructor; unfold is_u8; lia).
  assert (H3 : 0 <= 1) by lia.
  split; [exact H1|]. split; [exact H2|]. split; [exact H3|].
  exact (print_buffer_keeps_in_block true 1 (repeat 170) 0
           [1; 2; 3; 4; 200] H1 H2 H3).
Defined.




End DumpFacts.

(** ** Calls of the zero-frame generator in a row *)

Section ZeroCompose.

Import Ran Zero.

Lemma loop_add host format with_dither mask :
  forall m n rx previous,
    loop host format with_dither mask (m + n) rx previous
      = do (rx1, last1, rds1) <- loop host format with_dither mask m rx
                                    previous;
        do (rx2, last2, rds2) <- loop host format with_dither mask n rx1
                                    last1;
        Returns (rx2, last2, rds1 ++ rds2).
Proof.
  induction m as [|k IH]; intros n rx previous.
  - cbn [Nat.add loop bind app].
    destruct (loop host format with_dither mask n rx previous)
      as [[[rx2 last2] rds2]|msg]; reflexivity.
  - cbn [Nat.add loop].
    destruct (loop_body host format with_dither mask rx previous)
      as [[rx1 rd]|msg]; cbn [bind]; [|reflexivity].
    rewrite IH.
    destruct (loop host format with_dither mask k rx1 (drawn rd))
      as [[[rx2 last2] rds2]|msg]; cbn [bind]; [|reflexivity].
    destruct (loop host format with_dither mask n rx2 last2)
      as [[[rx3 last3] rds3]|msg]; reflexivity.
Qed.

Lemma sample_count_add n1 n2 :
  0 <= n1 -> 0 <= n2 -> (n1 + n2) * 2 < 2 ^ 64 ->
  sample_count (n1 + n2) = (sample_count n1 + sample_count n2)%nat.
Proof.
  intros H1 H2 H. unfold sample_count.
  rewrite !u64_id by (unfold is_u64; lia). lia.
Qed.

(** X22.  Two calls in a row, the second given the value the first
    returned, write what one call for all the frames writes, leave the
    generator in the same state and return the same value: the dither
    carries on across the calls.  The frame counts are such that the sample
    count does not wrap. *)
Theorem calls_in_a_row
    host rx n1 n2 format with_dither random_number_in :
  0 <= n1 -> 0 <= n2 -> (n1 + n2) * 2 < 2 ^ 64 ->
  generate_zero_frames host rx (n1 + n2) format with_dither random_number_in
    = do (rx1, buffer1, last1) <-
         generate_zero_frames host rx n1 format with_dither random_number_in;
      do (rx2, buffer2, last2) <-
         generate_zero_frames host rx1 n2 format with_dither last1;
      Returns (rx2, buffer1 ++ buffer2, last2).
Proof.
  intros H1 H2 H. unfold generate_zero_frames, zero_frame_rounds.
  rewrite sample_count_add by assumption.
  destruct (dither_mask format) as [mask|msg]; cbn [bind]; [|reflexivity].
  rewrite loop_add.
  destruct (loop host format with_dither mask (sample_count n1) rx
              random_number_in) as [[[rx1 last1] rds1]|msg];
    cbn [bind]; [|reflexivity].
  destruct (loop host format with_dither mask (sample_count n2) rx1 last1)
    as [[[rx2 last2] rds2]|msg]; cbn [bind]; [|reflexivity].
  rewrite map_app, concat_app. reflexivity.
Qed.

Lemma calls_in_a_row_witness :
  0 <= 2 /\ 0 <= 1 /\ (2 + 1) * 2 < 2 ^ 64 /\
  generate_zero_frames LittleEndian (raninit (mk_ranctx 0 0 0 0) 7) (2 + 1)
      SPS_FORMAT_S16_LE 1 0
    = do (rx1, buffer1, last1) <-
         generate_zero_frames LittleEndian (raninit (mk_ranctx 0 0 0 0) 7) 2
           SPS_FORMAT_S16_LE 1 0;
      do (rx2, buffer2, last2) <-
         generate_zero_frames LittleEndian rx1 1 SPS_FORMAT_S16_LE 1 last1;
      Returns (rx2, buffer1 ++ buffer2, last2).
Proof.
  assert (H1 : 0 <= 2) by lia.
  assert (H2 : 0 <= 1) by lia.
  assert (H3 : (2 + 1) * 2 < 2 ^ 64) by lia.
  split; [exact H1|]. split; [exact H2|]. split; [exact H3|].
  exact (calls_in_a_row LittleEndian (raninit (mk_ranctx 0 0 0 0) 7) 2 1
           SPS_FORMAT_S16_LE 1 0 H1 H2 H3).
Defined.

End ZeroCompose.

(** ** The dither source loses no state *)

Section RanOneToOne.

Import Ran.

Lemma u64_add_cancel p q k :
  is_u64 p -> is_u64 q -> u64 (p + k) = u64 (q + k) -> p = q.
Proof.
  unfold is_u64, u64. change (2 ^ 64) with 18446744073709551616.
  intros Hp Hq H. Z.div_mod_to_equations. lia.
Qed.

Lemma lxor_cancel_r p q r : Z.lxor p r = Z.lxor q r -> p = q.
Proof.
  intros H. apply (f_equal (fun z => Z.lxor z r)) in H.
  rewrite !Z.lxor_assoc, Z.lxor_nilpotent, !Z.lxor_0_r in H. exact H.
Qed.

(** A step of the generator can be undone: no two states lead to the same
    state. *)
Lemma ranval_one_to_one x y :
  wf x -> wf y -> snd (ranval x) = snd (ranval y) -> x = y.
Proof.
  intros (Hxa & Hxb & Hxc & Hxd) (Hya & Hyb & Hyc & Hyd) H.
  destruct x as [xa xb xc xd], y as [ya yb yc yd].
  unfold ranval in H. cbn [snd a b c d] in *.
  injection H as Ha Hb Hc Hd.
  rewrite Ha in Hd.
  assert (He : u64 (xa - rot xb 7) = u64 (ya - rot yb 7))
    by (apply (u64_add_cancel _ _ (Z.lxor yb (rot yc 13)));
        [apply u64_range|apply u64_range|exact Hd]).
  rewrite He in Hc.
  assert (Ed : xd = yd) by (apply (u64_add_cancel _ _ _ Hxd Hyd Hc)).
  subst yd.
  assert (Ec : xc = yc) by (apply (u64_add_cancel _ _ _ Hxc Hyc Hb)).
  subst yc.
  assert (Eb : xb = yb) by (apply (lxor_cancel_r _ _ _ Ha)).
  subst yb.
  assert (Ea : xa = ya).
  { apply (u64_add_cancel _ _ (- rot xb 7) Hxa Hya).
    rewrite !Z.add_opp_r. exact He. }
  subst ya. reflexivity.
Qed.

Lemma warm_up_one_to_one n :
  forall x y, wf x -> wf y -> warm_up n x = warm_up n y -> x = y.
Proof.
  induction n as [|k IH]; intros x y Hx Hy H; cbn [warm_up] in H.
  - exact H.
  - apply ranval_one_to_one; try assumption.
    apply IH; try apply ranval_wf; assumption.
Qed.

(** X23.  Seeding loses nothing: different seeds leave the generator in
    different states, whatever the states were before, because a step of
    [ranval] can be undone and so can the twenty rounds of [raninit]. *)
Theorem seeds_give_different_states x y seed1 seed2 :
  is_u64 seed1 -> is_u64 seed2 ->
  r64init x seed1 = r64init y seed2 -> seed1 = seed2.
Proof.
  intros H1 H2 H. unfold r64init, raninit in H.
  apply warm_up_one_to_one in H.
  - injection H as E _. exact E.
  - unfold wf. cbn [a b c d]. repeat split; try apply H1; unfold is_u64; lia.
  - unfold wf. cbn [a b c d]. repeat split; try apply H2; unfold is_u64; lia.
Qed.

Lemma seeds_give_different_states_witness :
  is_u64 5 /\ is_u64 5 /\
  r64init (mk_ranctx 1 2 3 4) 5 = r64init (mk_ranctx 0 0 0 0) 5 /\ 5 = 5.
Proof.
  assert (H : is_u64 5) by (unfold is_u64; lia).
  assert (E : r64init (mk_ranctx 1 2 3 4) 5 = r64init (mk_ranctx 0 0 0 0) 5)
    by reflexivity.
  split; [exact H|]. split; [exact H|]. split; [exact E|].
  exact (seeds_give_different_states (mk_ranctx 1 2 3 4) (mk_ranctx 0 0 0 0)
           5 5 H H E).
Defined.

End RanOneToOne.
